(** * LSB steganography engine: a shallow embedding of
      [src/steganography_engine.py] and the properties of its
      capacity calculator, frame codec, embed loop and extraction. *)

From Stdlib Require Import ZArith Lia.
From stdpp Require Import base decidable option numbers list.

Local Open Scope Z_scope.

(** ** Bytes and bits

    Python [bytes] hold integers in [0, 255]; the bit lists of the engine
    are Python lists of integers, all of them 0 or 1. *)

Definition byte_ok (b : Z) : Prop := 0 <= b < 256.
Definition bit_ok (b : Z) : Prop := b = 0 \/ b = 1.

#[global] Instance byte_ok_dec (b : Z) : Decision (byte_ok b).
Proof. unfold byte_ok. apply _. Defined.

(** [bytes(ints)]: raises [ValueError] ([None]) unless every element is in
    [range(256)]. *)
Definition bytes_of_ints (l : list Z) : option (list Z) :=
  if decide (Forall byte_ok l) then Some l else None.

(** [range(7, -1, -1)] *)
Definition range_7_down : list Z := [7; 6; 5; 4; 3; 2; 1; 0].

(** [range(0, n, 8)] *)
Definition range_step8 (n : nat) : list nat :=
  (fun k => 8 * k)%nat <$> seq 0 ((n + 7) / 8)%nat.

(** *** [_bytes_to_bits] *)

Definition _bytes_to_bits (data : list Z) : list Z :=
  data ≫= fun byte => (fun i => Z.land (byte ≫ i) 1) <$> range_7_down.

(** *** [_bits_to_bytes]

    [while len(bits) % 8 != 0: bits.append(0)]; the loop runs at most seven
    times, which is the fuel [_bits_to_bytes] gives it. *)
Fixpoint pad_loop (fuel : nat) (bits : list Z) : list Z :=
  match fuel with
  | O => bits
  | S fuel' =>
      if decide (length bits mod 8 ≠ 0)%nat
      then pad_loop fuel' (bits ++ [0])
      else bits
  end.

(** The inner loop [for j in range(8)] that packs the byte starting at
    index [i]. *)
Definition pack_byte (bits : list Z) (i : nat) : Z :=
  foldl (fun byte j =>
           if decide (i + j < length bits)%nat
           then Z.lor (byte ≪ 1) (bits !!! (i + j)%nat)
           else byte)
        0 (seq 0 8).

Definition _bits_to_bytes (bits : list Z) : option (list Z) :=
  match bits with
  | [] => Some []
  | _ =>
      let bits := pad_loop 7 bits in
      bytes_of_ints (pack_byte bits <$> range_step8 (length bits))
  end.

(** ** Images and arrays

    [Image.open] yields an image with a mode, a size and its samples in
    row-major, band-interleaved order.  The engine converts every image
    whose mode is not RGB or RGBA to RGB before [np.array] turns it into
    an array of shape [(height, width, bands)].  The model has the three
    modes of 8-bit images the repository's tests use: greyscale, RGB and
    RGBA. *)

Inductive pil_mode := L | RGB | RGBA.

#[global] Instance pil_mode_eq_dec : EqDecision pil_mode.
Proof. solve_decision. Defined.

Definition bands (m : pil_mode) : nat :=
  match m with L => 1 | RGB => 3 | RGBA => 4 end%nat.

Record image := {
  mode : pil_mode;
  width : nat;
  height : nat;
  samples : list Z
}.

(** [img.convert('RGB')] on a greyscale image repeats each sample in the
    three bands; on the other two modes the engine never calls it. *)
Definition convert_RGB (img : image) : image :=
  match mode img with
  | L => {| mode := RGB; width := width img; height := height img;
            samples := samples img ≫= fun v => [v; v; v] |}
  | RGB => img
  | RGBA => {| mode := RGB; width := width img; height := height img;
               samples := samples img |}
  end.

(** [if img.mode not in ['RGB', 'RGBA']: img = img.convert('RGB')] *)
Definition normalize (img : image) : image :=
  if decide (mode img = RGB \/ mode img = RGBA) then img else convert_RGB img.

Record ndarray := {
  shape : list nat;
  data : list Z
}.

(** [np.array(img)] *)
Definition np_array (img : image) : ndarray :=
  {| shape := match mode img with
              | L => [height img; width img]
              | m => [height img; width img; bands m]
              end;
     data := samples img |}.

(** [img_array.size]: the product of the shape. *)
Definition size (a : ndarray) : nat := foldr Nat.mul 1%nat (shape a).

(** A decoded 8-bit image: one sample in [0, 255] per band of each pixel. *)
Definition image_ok (img : image) : Prop :=
  length (samples img) = (height img * width img * bands (mode img))%nat
  /\ Forall byte_ok (samples img).

(** The image a three-channel array is saved as and, PNG being lossless,
    the image read back from that file. *)
Definition saved_png (a : ndarray) : image :=
  {| mode := RGB;
     width := shape a !!! 1%nat;
     height := shape a !!! 0%nat;
     samples := data a |}.

(** ** Capacity calculator *)

Record capacity_info := {
  pixels : Z;
  channels : Z;
  bits_per_pixel : Z;
  available_bytes : Z;
  available_bits : Z;
  header_bits : Z;
  image_mode : pil_mode;
  image_size : nat * nat
}.

(** The only failure of [calculate_capacity]:
    [ValueError("Capacity calculation failed: ...")]. *)
Inductive capacity_error := CapacityCalculationFailed.

(** [file] is what [Image.open(image_path)] finds: [None] when the file
    cannot be opened or decoded. *)
Definition calculate_capacity (file : option image) (bits_per_pixel : Z)
  : capacity_info + capacity_error :=
  match file with
  | None => inr CapacityCalculationFailed
  | Some img =>
      let img := normalize img in
      let img_array := np_array img in
      let total_pixels := Z.of_nat (size img_array) in
      let channels :=
        if decide (length (shape img_array) = 3%nat)
        then Z.of_nat (shape img_array !!! 2%nat)
        else 1 in
      let header_bits := 40 in
      let usable_bits := total_pixels * bits_per_pixel in
      let available_bits := usable_bits - header_bits in
      let available_bytes := Z.max 0 (available_bits `div` 8) in
      inl {| pixels := total_pixels;
             channels := channels;
             bits_per_pixel := bits_per_pixel;
             available_bytes := available_bytes;
             available_bits := available_bits;
             header_bits := header_bits;
             image_mode := mode img;
             image_size := (width img, height img) |}
  end.

(** ** The embed loop: [_embed_bits_safe]

    The array is copied to [int32] first; on samples in [0, 255], frame
    bits 0 or 1 and the 1, 2 or 3 bits per pixel that [embed_data] lets
    through, the bit operations below never leave that range, so the
    unbounded integers of the model and the 32-bit ones of the code
    agree. *)

Fixpoint embed_loop (bits_per_pixel : Z) (data_bits : list Z)
    (range : list Z) (flat_array : list Z) (bit_idx : nat) : list Z :=
  match range with
  | [] => flat_array
  | i :: range' =>
      if decide (length data_bits <= bit_idx)%nat then flat_array (* break *)
      else
        let pixel_idx := Z.to_nat (i `div` bits_per_pixel) in
        let bit_pos := i `mod` bits_per_pixel in
        if decide (pixel_idx < length flat_array)%nat then
          let bit_value := data_bits !!! bit_idx in
          let mask := Z.lnot (1 ≪ bit_pos) in
          let flat_array :=
            <[pixel_idx := Z.land (flat_array !!! pixel_idx) mask]> flat_array in
          let flat_array :=
            <[pixel_idx := Z.lor (flat_array !!! pixel_idx) (bit_value ≪ bit_pos)]>
              flat_array in
          embed_loop bits_per_pixel data_bits range' flat_array
            (if decide (bit_pos = bits_per_pixel - 1) then S bit_idx else bit_idx)
        else embed_loop bits_per_pixel data_bits range' flat_array bit_idx
  end.

(** [np.clip(a, 0, 255)] *)
Definition np_clip (l : list Z) : list Z := (fun v => Z.max 0 (Z.min v 255)) <$> l.

Definition _embed_bits_safe (img_array : ndarray) (data_bits : list Z)
    (bits_per_pixel : Z) : ndarray :=
  let original_shape := shape img_array in
  let flat_array := data img_array in
  let total_bits := Z.of_nat (length data_bits) in
  let flat_array :=
    embed_loop bits_per_pixel data_bits
      (seqZ 0 (Z.min (Z.of_nat (length flat_array) * bits_per_pixel)
                     (total_bits * bits_per_pixel)))
      flat_array 0%nat in
  {| shape := original_shape; data := np_clip flat_array |}.

(** ** Frame header: [struct.pack('>IB', ...)] and [struct.unpack('>I', ...)] *)

(** Raises [struct.error] ([None]) when an argument does not fit its field. *)
Definition struct_pack_IB (n m : Z) : option (list Z) :=
  if decide (0 <= n < 2 ^ 32 /\ 0 <= m < 256)
  then Some [Z.land (n ≫ 24) 255; Z.land (n ≫ 16) 255;
             Z.land (n ≫ 8) 255; Z.land n 255; m]
  else None.

(** Raises [struct.error] ([None]) unless given exactly four bytes. *)
Definition struct_unpack_I (b : list Z) : option Z :=
  match b with
  | [b0; b1; b2; b3] =>
      Some (Z.lor (Z.lor (b0 ≪ 24) (b1 ≪ 16)) (Z.lor (b2 ≪ 8) b3))
  | _ => None
  end.

(** ** Messages of the two entry points *)

Inductive embed_message :=
  | BitsPerPixelInvalid
      (** ["Bits per pixel must be 1, 2, or 3"] *)
  | DataTooLarge (available required : Z)
      (** ["Data too large. Available: {available}B, Required: {required}B"] *)
  | EmbeddingFailed
      (** ["Embedding failed: ..."], an exception inside [embed_data] *).

(** [Embedded stego data_size]: the call returned [True]; [stego] is the
    array saved at the output path and [data_size] the size the message
    reports. *)
Inductive embed_outcome :=
  | Embedded (stego : ndarray) (data_size : nat)
  | EmbedRefused (message : embed_message).

Inductive extract_message :=
  | ImageTooSmall
      (** ["Image too small to contain valid data"] *)
  | InvalidDataLength
      (** ["Invalid data length in header"] *)
  | HeaderCorrupted
      (** ["Invalid stego image: Header corrupted"] *)
  | ImageTooSmallNeed (needed available : Z)
      (** ["Image too small: Need {needed} bits, only {available} available"] *)
  | DecompressionFailed
      (** ["Decompression failed: ..."] *)
  | ExtractionFailed
      (** ["Extraction failed: ..."], an exception inside [extract_data] *).

(** [Extracted bytes]: the call returned the bytes and a success message;
    [ExtractRefused m]: it returned [None] and the message [m]. *)
Inductive extract_outcome :=
  | Extracted (extracted_bytes : list Z)
  | ExtractRefused (message : extract_message).

(** The header loop of [extract_data]: forty least significant bits, or
    [None] at the first index past the end of the array. *)
Fixpoint header_loop (flat_array : list Z) (range : list nat)
    (header_bits : list Z) : option (list Z) :=
  match range with
  | [] => Some header_bits
  | i :: range' =>
      if decide (i < length flat_array)%nat
      then header_loop flat_array range'
             (header_bits ++ [Z.land (flat_array !!! i) 1])
      else None
  end.

(** The body loop of [extract_data]. *)
Definition body_loop (flat_array : list Z) (bits_per_pixel : Z)
    (total_bits_needed : Z) : list Z :=
  let stop :=
    Z.min total_bits_needed (Z.of_nat (length flat_array) * bits_per_pixel) in
  seqZ 40 (stop - 40) ≫= fun i =>
    let pixel_idx := Z.to_nat (i `div` bits_per_pixel) in
    let bit_pos := i `mod` bits_per_pixel in
    if decide (pixel_idx < length flat_array)%nat
    then [Z.land ((flat_array !!! pixel_idx) ≫ bit_pos) 1]
    else [].

Section Engine.

(** [zlib.compress(data, level)] and [zlib.decompress(data)] come from the
    Python standard library; [None] stands for a raised exception. *)
Variable zlib_compress : list Z -> Z -> option (list Z).
Variable zlib_decompress : list Z -> option (list Z).

Definition compression_level : Z := 6.

(** The compression stage of [embed_data]: the bytes that go into the
    frame and the compression flag. *)
Definition compress_stage (secret_data : list Z) (use_compression : bool)
  : list Z * Z :=
  if use_compression && bool_decide (100 < length secret_data)%nat then
    match zlib_compress secret_data compression_level with
    | Some compressed_data =>
        if decide (length compressed_data < length secret_data)%nat
        then (compressed_data, 1)
        else (secret_data, 0)
    | None => (secret_data, 0)
    end
  else (secret_data, 0).

(** The frame [data_to_hide = header + secret_data] of [embed_data];
    [None] when [struct.pack] raises. *)
Definition build_frame (secret_data : list Z) (bits_per_pixel : Z)
    (use_compression : bool) : option (list Z) :=
  let '(secret_data, compression_flag) :=
    compress_stage secret_data use_compression in
  let data_length := Z.of_nat (length secret_data) in
  let metadata := Z.lor (compression_flag ≪ 7) (Z.land bits_per_pixel 7) in
  header ← struct_pack_IB data_length metadata;
  Some (header ++ secret_data).

(** [Embedded stego n] carries the array handed to
    [Image.fromarray(stego_array, mode='RGB')].  For a greyscale or RGB
    cover that array has three channels and is saved as it is; what Pillow
    makes of the four-channel array of an RGBA cover is outside the model,
    and the properties of saved images are stated for covers that are not
    RGBA. *)
Definition embed_data (file : option image) (secret_data : list Z)
    (bits_per_pixel : Z) (use_compression : bool) : embed_outcome :=
  if decide (bits_per_pixel ∉ [1; 2; 3]) then EmbedRefused BitsPerPixelInvalid
  else
    match file with
    | None => EmbedRefused EmbeddingFailed
    | Some img =>
        let img_array := np_array (normalize img) in
        match build_frame secret_data bits_per_pixel use_compression with
        | None => EmbedRefused EmbeddingFailed
        | Some data_to_hide =>
            let data_bits := _bytes_to_bits data_to_hide in
            match calculate_capacity file bits_per_pixel with
            | inr _ => EmbedRefused EmbeddingFailed
            | inl capacity_info =>
                let required_bits := Z.of_nat (length data_bits) in
                if decide (required_bits > available_bits capacity_info)
                then EmbedRefused
                       (DataTooLarge (available_bytes capacity_info)
                                     (Z.of_nat (length data_to_hide)))
                else
                  let stego_array :=
                    _embed_bits_safe img_array data_bits bits_per_pixel in
                  let stego_array :=
                    {| shape := shape stego_array;
                       data := np_clip (data stego_array) |} in
                  Embedded stego_array
                    (length (compress_stage secret_data use_compression).1)
            end
        end
    end.

(** The part of [extract_data] after the header is parsed. *)
Definition extract_body (flat_array : list Z) (data_length : Z)
    (compression_flag bits_per_pixel : Z) : extract_outcome :=
  let total_bits_needed := 40 + data_length * 8 in
  if decide (total_bits_needed
             > Z.of_nat (length flat_array) * bits_per_pixel)
  then ExtractRefused
         (ImageTooSmallNeed total_bits_needed
            (Z.of_nat (length flat_array) * bits_per_pixel))
  else
    let data_bits := body_loop flat_array bits_per_pixel total_bits_needed in
    match _bits_to_bytes data_bits with
    | None => ExtractRefused ExtractionFailed
    | Some extracted_bytes =>
        let extracted_bytes := take (Z.to_nat data_length) extracted_bytes in
        if decide (compression_flag = 1) then
          match zlib_decompress extracted_bytes with
          | Some extracted_bytes => Extracted extracted_bytes
          | None => ExtractRefused DecompressionFailed
          end
        else Extracted extracted_bytes
    end.

Definition extract_data (file : option image) : extract_outcome :=
  match file with
  | None => ExtractRefused ExtractionFailed
  | Some img =>
      let img_array := np_array (normalize img) in
      let flat_array := data img_array in
      match header_loop flat_array (seq 0 40) [] with
      | None => ExtractRefused ImageTooSmall
      | Some header_bits =>
          match _bits_to_bytes header_bits with
          | None => ExtractRefused ExtractionFailed
          | Some header_bytes =>
              if decide (5 <= length header_bytes)%nat then
                match struct_unpack_I (take 4 header_bytes) with
                | None => ExtractRefused ExtractionFailed
                | Some data_length =>
                    let metadata := header_bytes !!! 4%nat in
                    let compression_flag := Z.land (metadata ≫ 7) 1 in
                    let bits_per_pixel := Z.land metadata 7 in
                    if decide (data_length > 10000000)
                    then ExtractRefused InvalidDataLength
                    else
                      let bits_per_pixel :=
                        if decide (bits_per_pixel ∉ [1; 2; 3])
                        then 1 else bits_per_pixel in
                      extract_body flat_array data_length
                        compression_flag bits_per_pixel
                end
              else ExtractRefused HeaderCorrupted
          end
      end
  end.

End Engine.

(** * Definitions the properties are stated with *)

(** ** Bits and numbers *)

(** The eight bits [_bytes_to_bits] emits for one byte. *)
Definition byte_bits (byte : Z) : list Z :=
  (fun i => Z.land (byte ≫ i) 1) <$> range_7_down.

(** The bytes [_bits_to_bytes] packs, before [bytes(...)] checks them. *)
Definition pack_all (bits : list Z) : list Z :=
  pack_byte bits <$> range_step8 (length bits).

(** The least significant bit of a sample, as both loops of [extract_data]
    read it at bit position 0. *)
Definition lsb (v : Z) : Z := Z.land v 1.

(** The number a list of bits spells, most significant bit first. *)
Definition bits_value (bits : list Z) : Z :=
  foldl (fun acc b => 2 * acc + b) 0 bits.

(** ** What a header spells *)

(** The body length and the metadata byte that the least significant bits
    of the first forty samples spell, most significant bit first. *)
Definition header_length (flat_array : list Z) : Z :=
  bits_value (lsb <$> take 32 flat_array).

Definition header_metadata (flat_array : list Z) : Z :=
  bits_value (lsb <$> take 8 (drop 32 flat_array)).

(** The bits-per-pixel value [extract_data] reads the body with. *)
Definition header_bits_per_pixel (flat_array : list Z) : Z :=
  let bits_per_pixel := Z.land (header_metadata flat_array) 7 in
  if decide (bits_per_pixel ∉ [1; 2; 3]) then 1 else bits_per_pixel.

(** The compression flag [extract_data] reads: bit 7 of the metadata byte. *)
Definition header_compression_flag (flat_array : list Z) : Z :=
  Z.land (header_metadata flat_array ≫ 7) 1.

(** ** What the embed loop writes *)

(** One round of the loop body on a sample: clear bit [bit_pos], then set
    it to [bit_value]. *)
Definition write_slot (bit_value sample bit_pos : Z) : Z :=
  Z.lor (Z.land sample (Z.lnot (1 ≪ bit_pos))) (bit_value ≪ bit_pos).

(** The [bits_per_pixel] rounds that one sample gets: the same frame bit
    goes into each of the slots [0 .. bits_per_pixel-1]. *)
Definition write_slots (bits_per_pixel bit_value sample : Z) : Z :=
  foldl (write_slot bit_value) sample (seqZ 0 bits_per_pixel).

(** The array the loop leaves: sample [k] carries frame bit [k] in all its
    slots, for as long as there are frame bits. *)
Definition embedded_samples (bits_per_pixel : Z) (data_bits flat_array : list Z)
  : list Z :=
  imap (fun k sample =>
          if decide (k < length data_bits)%nat
          then write_slots bits_per_pixel (data_bits !!! k) sample
          else sample)
       flat_array.

(** Two arrays that agree on the three low bits of every sample. *)
Definition same_low_bits (flat1 flat2 : list Z) : Prop :=
  Forall2 (fun v1 v2 => v1 `mod` 8 = v2 `mod` 8) flat1 flat2.

(** ** The two algorithms in the words of the specification *)

(** The embed algorithm in the words of the specification: frame bit [i]
    goes to sample [i div bitsPerPixel], bit slot [i mod bitsPerPixel];
    the slot is cleared and the bit is or-ed in. *)
Definition spec_embed (flat_array : list Z) (frame_bits : list Z)
    (bits_per_pixel : Z) : list Z :=
  foldl (fun buffer i =>
           let sample := Z.to_nat (i `div` bits_per_pixel) in
           let slot := i `mod` bits_per_pixel in
           <[sample := Z.lor (Z.land (buffer !!! sample) (Z.lnot (1 ≪ slot)))
                             ((frame_bits !!! Z.to_nat i) ≪ slot)]> buffer)
        flat_array (seqZ 0 (Z.of_nat (length frame_bits))).

(** Extraction in the words of the specification: the caller passes
    [bits_per_pixel]; the header is the least significant bit of each of
    the first forty samples; the body needs [40 + data_length*8] bits of
    the [len(samples) * bits_per_pixel] there are, and body bit [i] is bit
    slot [i mod bits_per_pixel] of sample [i div bits_per_pixel]. *)
Definition spec_extract (zlib_decompress : list Z -> option (list Z))
    (file : option image) (bits_per_pixel : Z) : extract_outcome :=
  match file with
  | None => ExtractRefused ExtractionFailed
  | Some img =>
      let flat_array := samples (normalize img) in
      if decide (length flat_array < 40)%nat then ExtractRefused ImageTooSmall
      else
        let data_length := header_length flat_array in
        if decide (data_length > 10000000)
        then ExtractRefused InvalidDataLength
        else
          let total_bits_needed := 40 + data_length * 8 in
          let capacity_bits := Z.of_nat (length flat_array) * bits_per_pixel in
          if decide (total_bits_needed > capacity_bits)
          then ExtractRefused (ImageTooSmallNeed total_bits_needed capacity_bits)
          else
            let body_bits :=
              (fun i => Z.land ((flat_array !!! Z.to_nat (i `div` bits_per_pixel))
                                  ≫ (i `mod` bits_per_pixel)) 1)
                <$> seqZ 40 (data_length * 8) in
            match _bits_to_bytes body_bits with
            | None => ExtractRefused ExtractionFailed
            | Some body =>
                let body := take (Z.to_nat data_length) body in
                if decide (header_compression_flag flat_array = 1) then
                  match zlib_decompress body with
                  | Some secret => Extracted secret
                  | None => ExtractRefused DecompressionFailed
                  end
                else Extracted body
            end
  end.

(** ** Concrete inputs *)

(** Stand-ins for [zlib] in closed examples that never reach it. *)
Definition zlib_unused_compress : list Z -> Z -> option (list Z) :=
  fun _ _ => None.
Definition zlib_unused_decompress : list Z -> option (list Z) :=
  fun _ => None.

(** Forty-two samples whose least significant bits are all 1: the header
    they spell declares a body of [2^32 - 1] bytes. *)
Definition all_ones_image : image :=
  {| mode := RGB; width := 14; height := 1; samples := replicate 42 1 |}.

(** A single RGB pixel. *)
Definition one_pixel_image : image :=
  {| mode := RGB; width := 1; height := 1; samples := [10; 20; 30] |}.

(** A black cover image of 30 pixels (90 samples) and the one-byte
    payload [0xFF]. *)
Definition black_cover : image :=
  {| mode := RGB; width := 30; height := 1; samples := replicate 90 0 |}.

(** The frame [embed_data] builds for the payload [0xFF] at two bits per
    pixel: length 1, metadata 2, body. *)
Definition ff_frame : list Z := [0; 0; 0; 1; 2; 255].

(** The array [embed_data] saves for the payload [0xFF] in the black
    cover at two bits per pixel. *)
Definition black_stego : ndarray :=
  {| shape := [1; 30; 3]%nat;
     data := replicate 31 0 ++ [3] ++ replicate 6 0 ++ [3; 0] ++ replicate 8 3
             ++ replicate 42 0 |}.

(** A cover of 16 pixels, 48 samples. *)
Definition cover_16_pixels : image :=
  {| mode := RGB; width := 4; height := 4; samples := replicate 48 128 |}.

(** One RGB pixel. *)
Definition three_samples : ndarray :=
  {| shape := [1; 1; 3]%nat; data := [200; 7; 90] |}.

(** The array [embed_data] saves for the payload [0xFF] in the black
    cover at one bit per pixel. *)
Definition black_stego_one_bit : ndarray :=
  {| shape := [1; 30; 3]%nat;
     data := replicate 31 0 ++ [1] ++ replicate 7 0 ++ replicate 9 1
             ++ replicate 42 0 |}.

(** A greyscale image of four pixels. *)
Definition grey_2x2 : image :=
  {| mode := L; width := 2; height := 2; samples := [10; 20; 30; 40] |}.

(** * Properties *)

(** ** Bit-packing primitives *)

Lemma bytes_to_bits_cons (byte : Z) (data : list Z) :
  _bytes_to_bits (byte :: data) = byte_bits byte ++ _bytes_to_bits data.
Proof. reflexivity. Qed.

Lemma length_byte_bits (byte : Z) : length (byte_bits byte) = 8%nat.
Proof. reflexivity. Qed.

Lemma length_bytes_to_bits (data : list Z) :
  length (_bytes_to_bits data) = (8 * length data)%nat.
Proof.
  induction data as [|byte data IH]; [reflexivity|].
  rewrite bytes_to_bits_cons, length_app, length_byte_bits, IH. simpl. lia.
Qed.

Lemma land_1_mod (x : Z) : Z.land x 1 = x `mod` 2.
Proof. exact (Z.land_ones x 1 ltac:(lia)). Qed.

Lemma bytes_to_bits_bit_ok (data : list Z) : Forall bit_ok (_bytes_to_bits data).
Proof.
  induction data as [|byte data IH]; [constructor|].
  rewrite bytes_to_bits_cons. apply Forall_app. split; [|exact IH].
  unfold byte_bits. apply Forall_fmap, Forall_forall. intros i _. simpl.
  unfold bit_ok. rewrite land_1_mod.
  pose proof (Z.mod_pos_bound (byte ≫ i) 2). lia.
Qed.

Lemma pad_loop_aligned (fuel : nat) (bits : list Z) :
  (length bits mod 8 = 0)%nat -> pad_loop fuel bits = bits.
Proof.
  intros H. destruct fuel as [|fuel]; [reflexivity|]. cbn [pad_loop].
  destruct (decide (length bits mod 8 ≠ 0)%nat) as [Hne|_]; [|reflexivity].
  contradiction.
Qed.

(** The padding loop appends zero bits only, as many as reach the next
    multiple of eight; seven rounds are enough for any input. *)
Lemma pad_loop_spec (bits : list Z) :
  pad_loop 7 bits = bits ++ replicate ((8 - length bits mod 8) mod 8)%nat 0.
Proof.
  assert (Hgen : forall fuel l,
             ((8 - length l mod 8) mod 8 <= fuel)%nat ->
             pad_loop fuel l = l ++ replicate ((8 - length l mod 8) mod 8)%nat 0).
  { induction fuel as [|fuel IH]; intros l Hl.
    - cbn [pad_loop].
      assert (E : ((8 - length l mod 8) mod 8 = 0)%nat) by lia.
      rewrite E. cbn [replicate]. now rewrite app_nil_r.
    - cbn [pad_loop].
      pose proof (Nat.mod_upper_bound (length l) 8 ltac:(lia)) as Hb.
      destruct (decide (length l mod 8 ≠ 0)%nat) as [Hne|Heq].
      + assert (Hlen : (length (l ++ [0%Z]) mod 8
                        = (length l mod 8 + 1) mod 8)%nat).
        { rewrite length_app. cbn [length].
          rewrite (Nat.Div0.add_mod (length l) 1 8).
          reflexivity. }
        assert (Hk : ((8 - length l mod 8) mod 8
                      = S ((8 - length (l ++ [0%Z]) mod 8) mod 8))%nat).
        { rewrite Hlen. clear Hlen Hl. revert Hb Hne.
          generalize (length l mod 8)%nat. intros m Hb Hne.
          destruct (decide (m = 7)%nat) as [E|E].
          - rewrite E. reflexivity.
          - rewrite (Nat.mod_small (m + 1) 8) by lia.
            rewrite (Nat.mod_small (8 - m) 8) by lia.
            rewrite (Nat.mod_small (8 - (m + 1)) 8) by lia. lia. }
        rewrite IH by lia. rewrite Hk. cbn [replicate].
        rewrite <- app_assoc. reflexivity.
      + assert (E : (length l mod 8 = 0)%nat) by lia.
        rewrite E. change ((8 - 0) mod 8)%nat with 0%nat.
        cbn [replicate]. now rewrite app_nil_r. }
  apply Hgen.
  pose proof (Nat.mod_upper_bound (length bits) 8 ltac:(lia)).
  destruct (decide (length bits mod 8 = 0)%nat) as [E|E].
  - rewrite E. change ((8 - 0) mod 8)%nat with 0%nat. lia.
  - rewrite Nat.mod_small by lia. lia.
Qed.

Lemma foldl_ext_elem {A B} (f g : A -> B -> A) (l : list B) (a : A) :
  (forall a b, b ∈ l -> f a b = g a b) -> foldl f a l = foldl g a l.
Proof.
  revert a. induction l as [|b l IH]; intros a H; [reflexivity|].
  cbn [foldl]. rewrite H by left. apply IH.
  intros a' b' Hb'. apply H. now right.
Qed.

Lemma bits_to_bytes_unfold (bits : list Z) :
  _bits_to_bytes bits = bytes_of_ints (pack_all (pad_loop 7 bits)).
Proof. destruct bits; reflexivity. Qed.

Lemma pack_byte_app_r (h rest : list Z) (i : nat) :
  length h = 8%nat -> pack_byte (h ++ rest) (8 + i) = pack_byte rest i.
Proof.
  intros Hh. unfold pack_byte. apply foldl_ext_elem. intros byte j _.
  rewrite length_app, Hh.
  rewrite lookup_total_app_r by lia. rewrite Hh.
  replace (8 + i + j - 8)%nat with (i + j)%nat by lia.
  destruct (decide (i + j < length rest)%nat).
  - rewrite decide_True by lia. reflexivity.
  - rewrite decide_False by lia. reflexivity.
Qed.

Lemma pack_byte_app_l (h rest : list Z) :
  length h = 8%nat -> pack_byte (h ++ rest) 0 = pack_byte h 0.
Proof.
  intros Hh. unfold pack_byte. apply foldl_ext_elem. intros byte j Hj.
  apply elem_of_seq in Hj.
  rewrite length_app, Hh.
  rewrite lookup_total_app_l by lia.
  rewrite !decide_True by lia. reflexivity.
Qed.

Lemma range_step8_add8 (n : nat) :
  range_step8 (8 + n) = 0%nat :: ((fun i => 8 + i)%nat <$> range_step8 n).
Proof.
  unfold range_step8.
  replace ((8 + n + 7) / 8)%nat with (S ((n + 7) / 8)).
  2:{ replace (8 + n + 7)%nat with (1 * 8 + (n + 7))%nat by lia.
      rewrite Nat.div_add_l by lia. lia. }
  cbn [seq fmap list_fmap]. f_equal.
  rewrite <- fmap_S_seq, <- !list_fmap_compose.
  apply list_fmap_ext. intros _ k _. simpl. lia.
Qed.

Lemma pack_all_app8 (h rest : list Z) :
  length h = 8%nat -> pack_all (h ++ rest) = pack_byte h 0 :: pack_all rest.
Proof.
  intros Hh. unfold pack_all. rewrite length_app, Hh, range_step8_add8.
  cbn [fmap list_fmap]. rewrite pack_byte_app_l by exact Hh. f_equal.
  rewrite <- list_fmap_compose. apply list_fmap_ext. intros _ i _. simpl.
  apply pack_byte_app_r, Hh.
Qed.

(** Packing the eight bits of a byte gives the byte back: checked on each
    of the 256 bytes. *)
Lemma pack_byte_bits (b : Z) : byte_ok b -> pack_byte (byte_bits b) 0 = b.
Proof.
  intros Hb.
  assert (Hall : Forall (fun b => pack_byte (byte_bits b) 0 = b) (seqZ 0 256)).
  { apply (bool_decide_unpack _). vm_compute. reflexivity. }
  rewrite Forall_forall in Hall. apply Hall, elem_of_seqZ.
  unfold byte_ok in Hb. lia.
Qed.

Lemma pack_all_bytes_to_bits (x : list Z) :
  Forall byte_ok x -> pack_all (_bytes_to_bits x) = x.
Proof.
  induction 1 as [|b x Hb _ IH]; [reflexivity|].
  rewrite bytes_to_bits_cons, pack_all_app8 by apply length_byte_bits.
  rewrite pack_byte_bits by exact Hb. now rewrite IH.
Qed.

Lemma bits_to_bytes_of_bytes (x : list Z) :
  Forall byte_ok x -> _bits_to_bytes (_bytes_to_bits x) = Some x.
Proof.
  intros Hx. rewrite bits_to_bytes_unfold, pad_loop_aligned.
  2:{ rewrite length_bytes_to_bits, Nat.mul_comm. apply Nat.Div0.mod_mul. }
  rewrite pack_all_bytes_to_bits by exact Hx.
  unfold bytes_of_ints. now rewrite decide_True.
Qed.

(** [C8] Bit conversion inverse: for every byte sequence [x], the empty
    one included, [_bits_to_bytes (_bytes_to_bits x)] returns [x].  The
    first two parts say what the two conversions do: [_bytes_to_bits]
    emits the eight bits of each byte most significant first, in input
    order, and [_bits_to_bytes] pads on the right with zero bits up to a
    multiple of eight and packs each group of eight, most significant
    bit first. *)
Theorem bits_to_bytes_bytes_to_bits (x : list Z) :
  Forall byte_ok x ->
  (forall (i : nat), (i < 8 * length x)%nat ->
     _bytes_to_bits x !! i
     = Some (Z.b2z (Z.testbit (x !!! (i / 8)%nat) (7 - Z.of_nat (i mod 8)))))
  /\ (forall bits : list Z,
        _bits_to_bytes bits
        = bytes_of_ints
            (pack_all (bits ++ replicate ((8 - length bits mod 8) mod 8)%nat 0)))
  /\ _bits_to_bytes (_bytes_to_bits x) = Some x.
Proof.
  intros Hx. split; [|split].
  - induction x as [|b x IH]; intros i Hi; [simpl in Hi; lia|].
    rewrite bytes_to_bits_cons.
    destruct (decide (i < 8)%nat) as [Hlt|Hge].
    + rewrite lookup_app_l by (rewrite length_byte_bits; lia).
      rewrite (Nat.div_small i 8), (Nat.mod_small i 8) by lia.
      cbn [lookup_total list_lookup_total].
      do 8 (destruct i as [|i];
            [cbn; rewrite land_1_mod, <- Z.bit0_mod, Z.shiftr_spec by lia;
             reflexivity|]).
      lia.
    + rewrite lookup_app_r by (rewrite length_byte_bits; lia).
      rewrite length_byte_bits.
      apply Forall_cons in Hx as [_ Hx].
      rewrite IH by (try assumption; cbn [length] in Hi; lia).
      assert (Hd : (i / 8 = S ((i - 8) / 8))%nat).
      { replace i with ((i - 8) + 1 * 8)%nat at 1 by lia.
        rewrite Nat.div_add by lia. lia. }
      assert (Hm : (i mod 8 = (i - 8) mod 8)%nat).
      { replace i with ((i - 8) + 1 * 8)%nat at 1 by lia.
        apply Nat.Div0.mod_add. }
      rewrite Hd, Hm. reflexivity.
  - intros bits. now rewrite bits_to_bytes_unfold, pad_loop_spec.
  - apply bits_to_bytes_of_bytes, Hx.
Qed.

Lemma bits_to_bytes_bytes_to_bits_witness :
  Forall byte_ok [1; 2; 255]
  /\ _bits_to_bytes (_bytes_to_bits [1; 2; 255]) = Some [1; 2; 255].
Proof.
  assert (H : Forall byte_ok [1; 2; 255]).
  { repeat (apply Forall_cons_2; [unfold byte_ok; lia|]). apply Forall_nil_2. }
  split; [exact H|].
  exact (proj2 (proj2 (bits_to_bytes_bytes_to_bits [1; 2; 255] H))).
Defined.

(** ** Arithmetic of bit operations *)

Lemma land_shiftl_small (hi lo k : Z) :
  0 <= k -> 0 <= lo < 2 ^ k -> Z.land (hi ≪ k) lo = 0.
Proof.
  intros Hk Hlo. apply Z.bits_inj'. intros n Hn.
  rewrite Z.land_spec, Z.bits_0.
  destruct (Z.lt_ge_cases n k) as [Hlt|Hge].
  - rewrite Z.shiftl_spec_low by exact Hlt. reflexivity.
  - destruct (decide (lo = 0)) as [->|Hne].
    + rewrite Z.bits_0. apply andb_false_r.
    + rewrite (Z.bits_above_log2 lo n); [apply andb_false_r|lia|].
      assert (Z.log2 lo < k) by (apply Z.log2_lt_pow2; lia). lia.
Qed.

Lemma lor_shiftl_add (hi lo k : Z) :
  0 <= k -> 0 <= lo < 2 ^ k -> Z.lor (hi ≪ k) lo = hi * 2 ^ k + lo.
Proof.
  intros Hk Hlo.
  rewrite <- Z.lxor_lor by (apply land_shiftl_small; assumption).
  rewrite <- Z.add_nocarry_lxor by (apply land_shiftl_small; assumption).
  now rewrite Z.shiftl_mul_pow2.
Qed.

Lemma lor_shiftl_1 (x b : Z) : bit_ok b -> Z.lor (x ≪ 1) b = 2 * x + b.
Proof.
  intros Hb. rewrite lor_shiftl_add by (unfold bit_ok in Hb; lia). lia.
Qed.

Lemma lsb_bit_ok (v : Z) : bit_ok (lsb v).
Proof.
  unfold bit_ok, lsb. rewrite land_1_mod.
  pose proof (Z.mod_pos_bound v 2). lia.
Qed.

Lemma bits_value_app (a b : list Z) :
  bits_value (a ++ b) = bits_value a * 2 ^ Z.of_nat (length b) + bits_value b.
Proof.
  unfold bits_value. rewrite foldl_app. generalize (foldl (fun acc b => 2 * acc + b) 0 a).
  induction b as [|x b IH] using rev_ind; intros v.
  - simpl. lia.
  - rewrite !foldl_snoc, length_app, IH. cbn [length].
    rewrite (IH 0). replace (Z.of_nat (length b + 1)) with (Z.of_nat (length b) + 1) by lia.
    rewrite Z.pow_add_r by lia. lia.
Qed.

Lemma bits_value_bound (bits : list Z) :
  Forall bit_ok bits -> 0 <= bits_value bits < 2 ^ Z.of_nat (length bits).
Proof.
  induction bits as [|x bits IH] using rev_ind; intros H.
  - simpl. unfold bits_value. simpl. lia.
  - apply Forall_app in H as [Hb Hx]. rewrite Forall_singleton in Hx.
    specialize (IH Hb). rewrite bits_value_app, length_app. cbn [length].
    change (Z.of_nat 1) with 1.
    replace (Z.of_nat (length bits + 1)) with (Z.of_nat (length bits) + 1) by lia.
    rewrite Z.pow_add_r by lia.
    change (bits_value [x]) with (2 * 0 + x). change (2 ^ 1) with 2.
    unfold bit_ok in Hx. lia.
Qed.

Lemma pack_byte_value (h : list Z) :
  length h = 8%nat -> Forall bit_ok h -> pack_byte h 0 = bits_value h.
Proof.
  intros Hlen Hh.
  do 8 (destruct h as [|? h]; [discriminate Hlen|]).
  destruct h; [|discriminate Hlen].
  repeat match goal with
         | H : Forall _ (_ :: _) |- _ => apply Forall_cons in H as [? H]
         end.
  unfold pack_byte, bits_value. cbn.
  rewrite !lor_shiftl_1 by assumption. reflexivity.
Qed.

Lemma struct_unpack_I_value (b0 b1 b2 b3 : Z) :
  byte_ok b0 -> byte_ok b1 -> byte_ok b2 -> byte_ok b3 ->
  struct_unpack_I [b0; b1; b2; b3]
  = Some (((b0 * 256 + b1) * 256 + b2) * 256 + b3).
Proof.
  unfold byte_ok. intros H0 H1 H2 H3. cbn [struct_unpack_I]. f_equal.
  rewrite (lor_shiftl_add b2 b3 8) by lia.
  rewrite (Z.shiftl_mul_pow2 b1 16) by lia.
  rewrite (lor_shiftl_add b0 (b1 * 2 ^ 16) 24) by lia.
  replace (b0 * 2 ^ 24 + b1 * 2 ^ 16) with ((b0 * 2 ^ 8 + b1) ≪ 16)
    by (rewrite Z.shiftl_mul_pow2 by lia; lia).
  rewrite lor_shiftl_add by lia. lia.
Qed.

Lemma land_255_mod (x : Z) : Z.land x 255 = x `mod` 256.
Proof. exact (Z.land_ones x 8 ltac:(lia)). Qed.

Lemma land_7_mod (x : Z) : Z.land x 7 = x `mod` 8.
Proof. exact (Z.land_ones x 3 ltac:(lia)). Qed.

Lemma metadata_value (flag bpp : Z) :
  bit_ok flag ->
  Z.lor (flag ≪ 7) (Z.land bpp 7) = flag * 128 + bpp `mod` 8.
Proof.
  intros Hf. rewrite land_7_mod.
  pose proof (Z.mod_pos_bound bpp 8 ltac:(lia)).
  rewrite lor_shiftl_add by lia. lia.
Qed.

Lemma struct_pack_IB_spec (n m : Z) :
  0 <= n < 2 ^ 32 -> byte_ok m ->
  exists b0 b1 b2 b3,
    struct_pack_IB n m = Some [b0; b1; b2; b3; m]
    /\ Forall byte_ok [b0; b1; b2; b3]
    /\ ((b0 * 256 + b1) * 256 + b2) * 256 + b3 = n.
Proof.
  intros Hn Hm. unfold struct_pack_IB.
  rewrite decide_True by (unfold byte_ok in Hm; lia).
  eexists _, _, _, _. split; [reflexivity|].
  rewrite !land_255_mod, !Z.shiftr_div_pow2 by lia.
  change (2 ^ 24) with 16777216. change (2 ^ 16) with 65536.
  change (2 ^ 8) with 256. change (2 ^ 32) with 4294967296 in Hn.
  split.
  - repeat (apply Forall_cons_2; [apply Z.mod_pos_bound; lia|]).
    apply Forall_nil_2.
  - Z.to_euclidean_division_equations. lia.
Qed.

Lemma bytes_to_bits_app (a b : list Z) :
  _bytes_to_bits (a ++ b) = _bytes_to_bits a ++ _bytes_to_bits b.
Proof.
  induction a as [|x a IH]; [reflexivity|].
  rewrite <- app_comm_cons, !bytes_to_bits_cons, IH. apply app_assoc.
Qed.

Lemma byte_bits_bit_ok (b : Z) : Forall bit_ok (byte_bits b).
Proof.
  pose proof (bytes_to_bits_bit_ok [b]) as H.
  rewrite bytes_to_bits_cons in H. apply Forall_app in H as [H _]. exact H.
Qed.

Lemma bits_value_byte_bits (b : Z) : byte_ok b -> bits_value (byte_bits b) = b.
Proof.
  intros Hb. rewrite <- pack_byte_value
    by (try apply length_byte_bits; apply byte_bits_bit_ok).
  apply pack_byte_bits, Hb.
Qed.

Lemma bits_value_bytes_to_bits_4 (b0 b1 b2 b3 : Z) :
  Forall byte_ok [b0; b1; b2; b3] ->
  bits_value (_bytes_to_bits [b0; b1; b2; b3])
  = ((b0 * 256 + b1) * 256 + b2) * 256 + b3.
Proof.
  intros H.
  apply Forall_cons in H as [H0 H]. apply Forall_cons in H as [H1 H].
  apply Forall_cons in H as [H2 H]. apply Forall_cons in H as [H3 _].
  rewrite !bytes_to_bits_cons. change (_bytes_to_bits []) with (@nil Z).
  rewrite app_nil_r, !bits_value_app, !length_app, !length_byte_bits.
  rewrite !bits_value_byte_bits by assumption.
  change (2 ^ Z.of_nat (8 + (8 + 8))) with 16777216.
  change (2 ^ Z.of_nat (8 + 8)) with 65536.
  change (2 ^ Z.of_nat 8) with 256. lia.
Qed.

(** ** Frame layout *)

Section FrameFacts.

Variable zlib_compress : list Z -> Z -> option (list Z).

(** What the compression stage decides: flag 1 exactly when [zlib] was
    asked (compression requested, more than 100 bytes) and returned a
    strictly shorter byte string, which is then the body; flag 0 and the
    secret bytes themselves otherwise. *)
Lemma compress_stage_spec (secret_data : list Z) (use_compression : bool) :
  let body := (compress_stage zlib_compress secret_data use_compression).1 in
  let flag := (compress_stage zlib_compress secret_data use_compression).2 in
  (flag = 1
   /\ use_compression = true /\ (100 < length secret_data)%nat
   /\ zlib_compress secret_data compression_level = Some body
   /\ (length body < length secret_data)%nat)
  \/ (flag = 0 /\ body = secret_data).
Proof.
  unfold compress_stage.
  destruct use_compression; cbn [andb]; [|right; split; reflexivity].
  destruct (bool_decide_reflect (100 < length secret_data)%nat) as [Hlen|Hlen];
    [|right; split; reflexivity].
  destruct (zlib_compress secret_data compression_level) as [compressed|] eqn:Hz;
    [|right; split; reflexivity].
  destruct (decide (length compressed < length secret_data)%nat);
    [left|right; split; reflexivity].
  cbn [fst snd]. repeat split; assumption.
Qed.

(** The header [struct.pack] builds in front of the body. *)
Lemma build_frame_header (secret_data : list Z) (bits_per_pixel : Z)
    (use_compression : bool) :
  let body := (compress_stage zlib_compress secret_data use_compression).1 in
  let flag := (compress_stage zlib_compress secret_data use_compression).2 in
  let metadata := Z.lor (flag ≪ 7) (Z.land bits_per_pixel 7) in
  Z.of_nat (length body) < 2 ^ 32 ->
  exists b0 b1 b2 b3,
    build_frame zlib_compress secret_data bits_per_pixel use_compression
    = Some ([b0; b1; b2; b3; metadata] ++ body)
    /\ Forall byte_ok [b0; b1; b2; b3; metadata]
    /\ ((b0 * 256 + b1) * 256 + b2) * 256 + b3 = Z.of_nat (length body).
Proof.
  intros body flag metadata Hlen.
  pose proof (compress_stage_spec secret_data use_compression) as Hstage.
  cbn zeta in Hstage. fold body flag in Hstage.
  assert (Hflag : bit_ok flag) by (unfold bit_ok; tauto).
  assert (Hmeta : byte_ok metadata).
  { unfold metadata. rewrite metadata_value by exact Hflag.
    pose proof (Z.mod_pos_bound bits_per_pixel 8 ltac:(lia)).
    unfold byte_ok, bit_ok in *. lia. }
  destruct (struct_pack_IB_spec (Z.of_nat (length body)) _ ltac:(lia) Hmeta)
    as (b0 & b1 & b2 & b3 & Hpack & Hbytes & Hsum).
  exists b0, b1, b2, b3. split; [|split; [|exact Hsum]].
  - unfold build_frame.
    destruct (compress_stage zlib_compress secret_data use_compression)
      as [body' flag'] eqn:Hc.
    cbn [fst snd] in body, flag. subst body flag metadata.
    rewrite Hpack. reflexivity.
  - change [b0; b1; b2; b3; metadata] with ([b0; b1; b2; b3] ++ [metadata]).
    rewrite Forall_app. split; [exact Hbytes|].
    apply Forall_cons_2; [exact Hmeta|apply Forall_nil_2].
Qed.

(** [C7] The frame [embed_data] builds, for every secret byte sequence,
    compression decision and bits-per-pixel value: [build_frame] returns a
    frame, and that frame is four bytes that spell the length of the
    (possibly compressed) body as a big-endian unsigned number, then the
    metadata byte [(compressed ? 1 : 0) << 7 | (bits_per_pixel & 0x07)],
    then the body itself.  The length field has 32 bits: the body must be
    shorter than 2^32 bytes, or [struct.pack] raises. *)
Theorem frame_layout (secret_data : list Z) (bits_per_pixel : Z)
    (use_compression : bool) :
  let body := (compress_stage zlib_compress secret_data use_compression).1 in
  let flag := (compress_stage zlib_compress secret_data use_compression).2 in
  Z.of_nat (length body) < 2 ^ 32 ->
  exists b0 b1 b2 b3,
    build_frame zlib_compress secret_data bits_per_pixel use_compression
    = Some ([b0; b1; b2; b3;
             Z.lor (flag ≪ 7) (Z.land bits_per_pixel 7)] ++ body)
    /\ Forall byte_ok [b0; b1; b2; b3]
    /\ ((b0 * 256 + b1) * 256 + b2) * 256 + b3 = Z.of_nat (length body)
    /\ (flag = 1 /\ body ≠ secret_data \/ flag = 0 /\ body = secret_data).
Proof.
  intros body flag Hlen.
  destruct (build_frame_header secret_data bits_per_pixel use_compression Hlen)
    as (b0 & b1 & b2 & b3 & Hframe & Hbytes & Hsum).
  exists b0, b1, b2, b3. split; [exact Hframe|].
  split; [|split; [exact Hsum|]].
  - apply (Forall_app byte_ok [b0; b1; b2; b3]
             [Z.lor (flag ≪ 7) (Z.land bits_per_pixel 7)]) in Hbytes
      as [Hb _].
    exact Hb.
  - destruct (compress_stage_spec secret_data use_compression)
      as [(Hf & _ & _ & _ & Hshort)|[Hf Hb]]; [left|right; split; assumption].
    split; [exact Hf|]. fold body. intros Heq.
    unfold body in Heq. rewrite Heq in Hshort. lia.
Qed.

End FrameFacts.

Lemma frame_layout_witness :
  Z.of_nat (length [72; 105]) < 2 ^ 32
  /\ exists b0 b1 b2 b3,
       build_frame zlib_unused_compress [72; 105] 2 true
       = Some ([b0; b1; b2; b3; 2] ++ [72; 105])
       /\ Forall byte_ok [b0; b1; b2; b3]
       /\ ((b0 * 256 + b1) * 256 + b2) * 256 + b3 = 2
       /\ (0 = 1 /\ [72; 105] ≠ [72; 105] \/ 0 = 0 /\ [72; 105] = [72; 105]).
Proof.
  split; [vm_compute; reflexivity|].
  apply (frame_layout zlib_unused_compress [72; 105] 2 true).
  vm_compute. reflexivity.
Defined.

(** ** Capacity report *)

Lemma size_np_array_normalize (img : image) :
  size (np_array (normalize img))
  = (height img * width img * bands (mode (normalize img)))%nat.
Proof.
  destruct img as [[] w h s]; cbv -[Nat.mul];
    rewrite Nat.mul_1_r, Nat.mul_assoc; reflexivity.
Qed.

Lemma channels_np_array_normalize (img : image) :
  (if decide (length (shape (np_array (normalize img))) = 3%nat)
   then Z.of_nat (shape (np_array (normalize img)) !!! 2%nat)
   else 1)
  = Z.of_nat (bands (mode (normalize img))).
Proof. destruct img as [[] w h s]; reflexivity. Qed.

(** [C10] The report of the capacity calculator, for every image and every
    bits-per-pixel value: [available_bytes] is never negative and equals
    [max(0, (pixels*channels*bitsPerPixel - 40) div 8)], where [pixels] is
    the number of pixels [height*width] of the image and [channels] the
    number of channels it is measured with, 4 for an RGBA image and 3 for
    any other (greyscale is converted to RGB first).  The report's
    [channels] field is that number, its [pixels] field is the sample
    count [pixels*channels], and [available_bits] is
    [pixels*channels*bitsPerPixel - 40]: an image too small for the 40-bit
    header reports 0 bytes while its [available_bits] is negative. *)
Theorem capacity_available_bytes (img : image) (bpp : Z) :
  let image_pixels := Z.of_nat (height img * width img) in
  let image_channels := match mode img with RGBA => 4 | _ => 3 end in
  let usable := image_pixels * image_channels * bpp in
  exists r : capacity_info,
    calculate_capacity (Some img) bpp = inl r
    /\ channels r = image_channels
    /\ pixels r = image_pixels * image_channels
    /\ bits_per_pixel r = bpp
    /\ available_bits r = usable - 40
    /\ available_bytes r = Z.max 0 ((usable - 40) `div` 8)
    /\ 0 <= available_bytes r
    /\ (usable < 40 -> available_bytes r = 0 /\ available_bits r < 0).
Proof.
  intros image_pixels image_channels usable.
  eexists. split; [reflexivity|].
  cbn [available_bytes available_bits channels pixels bits_per_pixel].
  rewrite channels_np_array_normalize, size_np_array_normalize.
  assert (Hc : Z.of_nat (bands (mode (normalize img))) = image_channels)
    by (destruct img as [[] w h s]; reflexivity).
  replace (Z.of_nat (height img * width img * bands (mode (normalize img))))
    with (image_pixels * image_channels)
    by (rewrite <- Hc; unfold image_pixels; lia).
  fold usable. rewrite Hc.
  repeat split; try lia.
  assert ((usable - 40) `div` 8 < 0) by (apply Z.div_lt_upper_bound; lia). lia.
Qed.

(** The claim of [C5], that the capacity calculator fails on a
    bits-per-pixel value outside {1,2,3}, does not hold: here it returns a
    report for the value 5. *)
Lemma capacity_accepts_out_of_range_bpp :
  ~ (forall (img : image) (bpp : Z),
       bpp ∉ [1; 2; 3] ->
       exists e, calculate_capacity (Some img) bpp = inr e).
Proof.
  intros H. destruct (H one_pixel_image 5) as [e He].
  - intros Hin. repeat (apply elem_of_cons in Hin as [Hin|Hin]; [discriminate|]).
    inversion Hin.
  - discriminate He.
Qed.

(** [C5], amended: the capacity calculator does not validate
    [bits_per_pixel].  For every image that opens and every integer value,
    in {1,2,3} or not, it returns a report that carries the value as given
    (never clamped) and [available_bits = samples * bits_per_pixel - 40];
    it fails only when the image cannot be opened. *)
Theorem capacity_never_validates_bpp (img : image) (bpp : Z) :
  (exists r : capacity_info,
     calculate_capacity (Some img) bpp = inl r
     /\ bits_per_pixel r = bpp
     /\ available_bits r = pixels r * bpp - 40
     /\ pixels r
        = Z.of_nat (height img * width img * bands (mode (normalize img))))
  /\ calculate_capacity None bpp = inr CapacityCalculationFailed.
Proof.
  split; [|reflexivity]. eexists. split; [reflexivity|].
  cbn [bits_per_pixel available_bits pixels].
  rewrite size_np_array_normalize. repeat split.
Qed.

(** ** The header as [extract_data] decodes it *)

Lemma header_loop_spec (flat_array : list Z) (k a : nat) (acc : list Z) :
  (a + k <= length flat_array)%nat ->
  header_loop flat_array (seq a k) acc
  = Some (acc ++ (lsb <$> take k (drop a flat_array))).
Proof.
  revert a acc. induction k as [|k IH]; intros a acc H.
  - cbn. now rewrite app_nil_r.
  - cbn [seq header_loop]. rewrite decide_True by lia.
    rewrite IH by lia. f_equal. rewrite <- app_assoc. f_equal.
    destruct (lookup_lt_is_Some_2 flat_array a ltac:(lia)) as [v Hv].
    rewrite (list_lookup_total_correct _ _ _ Hv).
    rewrite (drop_S _ _ _ Hv). reflexivity.
Qed.

Lemma header_loop_short (flat_array : list Z) (k a : nat) (acc : list Z) :
  (a <= length flat_array < a + k)%nat ->
  header_loop flat_array (seq a k) acc = None.
Proof.
  revert a acc. induction k as [|k IH]; intros a acc H; [lia|].
  cbn [seq header_loop]. destruct (decide (a < length flat_array)%nat).
  - apply IH. lia.
  - reflexivity.
Qed.

Ltac all_bits_ok :=
  repeat (apply Forall_cons_2; [assumption|]); apply Forall_nil_2.

Lemma header_bytes_spec (bits : list Z) :
  length bits = 40%nat -> Forall bit_ok bits ->
  exists b0 b1 b2 b3,
    _bits_to_bytes bits
    = Some [b0; b1; b2; b3; bits_value (drop 32 bits)]
    /\ struct_unpack_I [b0; b1; b2; b3] = Some (bits_value (take 32 bits)).
Proof.
  intros Hlen Hbits.
  do 40 (destruct bits as [|? bits]; [discriminate Hlen|]).
  destruct bits; [|discriminate Hlen].
  repeat match goal with
         | H : Forall _ (_ :: _) |- _ => apply Forall_cons in H as [? H]
         end.
  rewrite bits_to_bytes_unfold, pad_loop_aligned by reflexivity.
  repeat match goal with
         | |- context [pack_all (?a :: ?b :: ?c :: ?d :: ?e :: ?f :: ?g :: ?h :: ?r)] =>
             change (a :: b :: c :: d :: e :: f :: g :: h :: r)
               with ([a; b; c; d; e; f; g; h] ++ r);
             rewrite (pack_all_app8 [a; b; c; d; e; f; g; h] r) by reflexivity;
             rewrite (pack_byte_value [a; b; c; d; e; f; g; h])
               by (try reflexivity; all_bits_ok)
         end.
  change (pack_all []) with (@nil Z).
  assert (Hbyte : forall h, length h = 8%nat -> Forall bit_ok h ->
                            byte_ok (bits_value h)).
  { intros h Hh Hok. pose proof (bits_value_bound h Hok) as Hb.
    rewrite Hh in Hb. exact Hb. }
  eexists _, _, _, _. split.
  - unfold bytes_of_ints. rewrite decide_True; [reflexivity|].
    repeat (apply Forall_cons_2;
            [apply Hbyte; [reflexivity|all_bits_ok]|]).
    apply Forall_nil_2.
  - rewrite struct_unpack_I_value
      by (apply Hbyte; [reflexivity|all_bits_ok]).
    f_equal. unfold bits_value. cbn [app take foldl]. lia.
Qed.

Section ExtractFacts.

Variable zlib_decompress : list Z -> option (list Z).

Lemma extract_data_short (img : image) :
  (length (samples (normalize img)) < 40)%nat ->
  extract_data zlib_decompress (Some img) = ExtractRefused ImageTooSmall.
Proof.
  intros H. unfold extract_data. cbn [data np_array].
  rewrite header_loop_short by lia. reflexivity.
Qed.

(** With forty samples or more the header always parses, and
    [extract_data] goes on with the three values it spells. *)
Lemma extract_data_parsed (img : image) :
  let flat_array := samples (normalize img) in
  (40 <= length flat_array)%nat ->
  extract_data zlib_decompress (Some img)
  = if decide (header_length flat_array > 10000000)
    then ExtractRefused InvalidDataLength
    else extract_body zlib_decompress flat_array
           (header_length flat_array)
           (header_compression_flag flat_array)
           (header_bits_per_pixel flat_array).
Proof.
  intros flat_array H. unfold extract_data. cbn [data np_array].
  fold flat_array. rewrite header_loop_spec by lia.
  rewrite drop_0, app_nil_l.
  destruct (header_bytes_spec (lsb <$> take 40 flat_array))
    as (b0 & b1 & b2 & b3 & Hbytes & Hlen).
  { rewrite length_fmap, length_take. lia. }
  { apply Forall_fmap, Forall_forall. intros v _. apply lsb_bit_ok. }
  rewrite Hbytes. cbn [length]. rewrite decide_True by lia.
  cbn [take lookup_total list_lookup_total]. rewrite Hlen.
  rewrite <- fmap_take, take_take, <- fmap_drop.
  replace (drop 32 (take 40 flat_array)) with (take 8 (drop 32 flat_array))
    by (rewrite take_drop_commute; reflexivity).
  reflexivity.
Qed.

End ExtractFacts.

(** ** Sanity bound on the declared length *)

(** [C9] A stego image whose header, as decoded from the least significant
    bits of its first forty samples, declares a body longer than
    10,000,000 bytes makes [extract_data] return no bytes and the message
    "Invalid data length in header"; the body is not read. *)
Theorem extract_rejects_huge_length
    (zlib_decompress : list Z -> option (list Z)) (img : image) :
  (40 <= length (samples (normalize img)))%nat ->
  header_length (samples (normalize img)) > 10000000 ->
  extract_data zlib_decompress (Some img) = ExtractRefused InvalidDataLength.
Proof.
  intros Hlen Hbig. rewrite extract_data_parsed by exact Hlen.
  now rewrite decide_True.
Qed.

Lemma extract_rejects_huge_length_witness :
  header_length (samples (normalize all_ones_image)) = 2 ^ 32 - 1
  /\ extract_data zlib_unused_decompress (Some all_ones_image)
     = ExtractRefused InvalidDataLength.
Proof.
  split; [reflexivity|].
  apply (extract_rejects_huge_length zlib_unused_decompress all_ones_image).
  - vm_compute. lia.
  - vm_compute. reflexivity.
Defined.

(** ** Which bits-per-pixel value extraction reads the body with *)

Lemma bind_singleton_fmap {A B} (f : A -> list B) (g : A -> B) (l : list A) :
  (forall x, x ∈ l -> f x = [g x]) -> l ≫= f = g <$> l.
Proof.
  induction l as [|x l IH]; intros H; [reflexivity|].
  cbn [mbind list_bind fmap list_fmap].
  rewrite H by left. cbn [app]. f_equal.
  apply IH. intros y Hy. apply H. now right.
Qed.

(** Under the capacity check of [extract_data] the bounds of the body loop
    never cut it short: it reads exactly [data_length*8] bits. *)
Lemma body_loop_spec (flat_array : list Z) (bits_per_pixel data_length : Z) :
  0 < bits_per_pixel -> 0 <= data_length ->
  40 + data_length * 8 <= Z.of_nat (length flat_array) * bits_per_pixel ->
  body_loop flat_array bits_per_pixel (40 + data_length * 8)
  = (fun i => Z.land ((flat_array !!! Z.to_nat (i `div` bits_per_pixel))
                        ≫ (i `mod` bits_per_pixel)) 1)
      <$> seqZ 40 (data_length * 8).
Proof.
  intros Hbpp Hn Hfit. unfold body_loop.
  rewrite Z.min_l by lia.
  replace (40 + data_length * 8 - 40) with (data_length * 8) by lia.
  apply bind_singleton_fmap. intros i Hi.
  apply elem_of_seqZ in Hi.
  assert (i `div` bits_per_pixel < Z.of_nat (length flat_array))
    by (apply Z.div_lt_upper_bound; lia).
  assert (0 <= i `div` bits_per_pixel) by (apply Z.div_pos; lia).
  rewrite decide_True by lia. reflexivity.
Qed.

Lemma header_length_nonneg (flat_array : list Z) : 0 <= header_length flat_array.
Proof.
  unfold header_length.
  apply (bits_value_bound (lsb <$> take 32 flat_array)).
  apply Forall_fmap, Forall_forall. intros v _. apply lsb_bit_ok.
Qed.

Lemma header_bits_per_pixel_range (flat_array : list Z) :
  header_bits_per_pixel flat_array ∈ [1; 2; 3].
Proof.
  unfold header_bits_per_pixel.
  destruct (decide (Z.land (header_metadata flat_array) 7 ∉ [1; 2; 3]))
    as [Hout|Hin].
  - left.
  - destruct (decide (Z.land (header_metadata flat_array) 7 ∈ [1; 2; 3]));
      [assumption|contradiction].
Qed.

(** The claim of [C3], that the body is read with a value the caller
    passes and the header field is informational only, does not hold of
    [extract_data], which takes no such argument: on the saved image
    [black_stego], whose header field says 2, it differs from extraction at
    the caller's value 1. *)
Lemma extract_ignores_caller_bpp :
  ~ (forall (img : image) (bpp : Z),
       bpp ∈ [1; 2; 3] ->
       extract_data zlib_unused_decompress (Some img)
       = spec_extract zlib_unused_decompress (Some img) bpp).
Proof.
  intros H. specialize (H (saved_png black_stego) 1 ltac:(left)).
  vm_compute in H. discriminate H.
Qed.

(** [C3], amended: [extract_data] takes the image only, and reads the body
    with the bits-per-pixel value stored in the header (the low three bits
    of the metadata byte, replaced by 1 when they are not 1, 2 or 3): it
    computes [total_bits_needed = 40 + data_length*8], compares it with the
    number of samples times that stored value, and addresses body bit [i]
    at sample [i div] and slot [i mod] that stored value. *)
Theorem extract_uses_header_bpp
    (zlib_decompress : list Z -> option (list Z)) (img : image) :
  extract_data zlib_decompress (Some img)
  = spec_extract zlib_decompress (Some img)
      (header_bits_per_pixel (samples (normalize img))).
Proof.
  unfold spec_extract.
  destruct (decide (length (samples (normalize img)) < 40)%nat) as [Hshort|Hlong].
  - apply extract_data_short, Hshort.
  - rewrite extract_data_parsed by lia.
    destruct (decide (header_length (samples (normalize img)) > 10000000));
      [reflexivity|].
    unfold extract_body.
    destruct (decide (40 + header_length (samples (normalize img)) * 8
                      > Z.of_nat (length (samples (normalize img)))
                        * header_bits_per_pixel (samples (normalize img))));
      [reflexivity|].
    rewrite body_loop_spec; [reflexivity| |apply header_length_nonneg|lia].
    pose proof (header_bits_per_pixel_range (samples (normalize img))) as Hr.
    repeat (apply elem_of_cons in Hr as [->|Hr]; [lia|]). inversion Hr.
Qed.

(** ** What the embed loop does, for every input *)

Lemma embed_loop_step (bpp : Z) (data_bits : list Z) (i : Z) (range : list Z)
    (flat_array : list Z) (bit_idx : nat) :
  (bit_idx < length data_bits)%nat ->
  (Z.to_nat (i `div` bpp) < length flat_array)%nat ->
  embed_loop bpp data_bits (i :: range) flat_array bit_idx
  = embed_loop bpp data_bits range
      (<[Z.to_nat (i `div` bpp) :=
           write_slot (data_bits !!! bit_idx)
             (flat_array !!! Z.to_nat (i `div` bpp)) (i `mod` bpp)]> flat_array)
      (if decide (i `mod` bpp = bpp - 1) then S bit_idx else bit_idx).
Proof.
  intros Hidx Hpix. cbn [embed_loop].
  rewrite decide_False by lia. rewrite decide_True by exact Hpix.
  rewrite list_lookup_total_insert_eq by exact Hpix.
  rewrite list_insert_insert_eq. reflexivity.
Qed.

Lemma div_mod_slot (bpp q r : Z) :
  0 <= r < bpp -> (q * bpp + r) `div` bpp = q /\ (q * bpp + r) `mod` bpp = r.
Proof.
  intros Hr. split.
  - rewrite Z.add_comm, Z.div_add by lia. rewrite Z.div_small by lia. lia.
  - rewrite Z.add_comm, Z.mod_add by lia. apply Z.mod_small. lia.
Qed.

(** The rounds [r0 .. bpp-1] of sample [q]: all of them write frame bit
    [q], and only the last one moves on to the next frame bit. *)
Lemma embed_loop_slots (bpp : Z) (data_bits : list Z) (q : nat) (range : list Z) :
  (q < length data_bits)%nat ->
  forall (k : nat) (r0 : Z) (flat_array : list Z),
    0 <= r0 -> r0 + Z.of_nat (S k) = bpp ->
    (q < length flat_array)%nat ->
    embed_loop bpp data_bits
      (seqZ (Z.of_nat q * bpp + r0) (Z.of_nat (S k)) ++ range) flat_array q
    = embed_loop bpp data_bits range
        (<[q := foldl (write_slot (data_bits !!! q)) (flat_array !!! q)
                  (seqZ r0 (Z.of_nat (S k)))]> flat_array)
        (S q).
Proof.
  intros Hq. induction k as [|k IH]; intros r0 flat_array Hr0 Hsum Hlen.
  - destruct (div_mod_slot bpp (Z.of_nat q) r0 ltac:(lia)) as [Hd Hm].
    change (Z.of_nat 1) with 1. rewrite !seqZ_cons, !seqZ_nil by lia.
    cbn [app foldl]. rewrite embed_loop_step; rewrite ?Hd, ?Hm, ?Nat2Z.id;
      try assumption.
    rewrite decide_True by lia. reflexivity.
  - destruct (div_mod_slot bpp (Z.of_nat q) r0 ltac:(lia)) as [Hd Hm].
    rewrite (seqZ_cons (Z.of_nat q * bpp + r0)) by lia.
    rewrite (seqZ_cons r0) by lia.
    cbn [app foldl]. rewrite embed_loop_step; rewrite ?Hd, ?Hm, ?Nat2Z.id;
      try assumption.
    rewrite decide_False by lia.
    replace (Z.succ (Z.of_nat q * bpp + r0))
      with (Z.of_nat q * bpp + Z.succ r0) by lia.
    replace (Z.pred (Z.of_nat (S (S k)))) with (Z.of_nat (S k)) by lia.
    rewrite IH by (rewrite ?length_insert; lia).
    rewrite list_lookup_total_insert_eq by exact Hlen.
    rewrite list_insert_insert_eq. reflexivity.
Qed.

(** Samples [q .. q+k-1], one after the other. *)
Lemma embed_loop_samples (bpp : Z) (data_bits : list Z) :
  0 < bpp ->
  forall (k q : nat) (flat_array : list Z),
    (q + k <= length flat_array)%nat -> (q + k <= length data_bits)%nat ->
    embed_loop bpp data_bits
      (seqZ (Z.of_nat q * bpp) (Z.of_nat k * bpp)) flat_array q
    = imap (fun j sample =>
              if decide (q <= j < q + k)%nat
              then write_slots bpp (data_bits !!! j) sample
              else sample)
           flat_array.
Proof.
  intros Hbpp. induction k as [|k IH]; intros q flat_array Hflat Hbits.
  - rewrite seqZ_nil by lia. cbn [embed_loop].
    apply list_eq. intros j. rewrite list_lookup_imap.
    destruct (flat_array !! j) as [v|]; [|reflexivity]. cbn.
    rewrite decide_False by lia. reflexivity.
  - replace (Z.of_nat (S k) * bpp) with (bpp + Z.of_nat k * bpp) by lia.
    rewrite seqZ_app by lia.
    replace (Z.of_nat q * bpp + bpp) with (Z.of_nat (S q) * bpp) by lia.
    pose proof (embed_loop_slots bpp data_bits q
                  (seqZ (Z.of_nat (S q) * bpp) (Z.of_nat k * bpp))
                  ltac:(lia) (Z.to_nat bpp - 1) 0 flat_array
                  ltac:(lia) ltac:(lia) ltac:(lia)) as Hslots.
    replace (Z.of_nat (S (Z.to_nat bpp - 1))) with bpp in Hslots by lia.
    rewrite Z.add_0_r in Hslots. rewrite Hslots. clear Hslots.
    rewrite IH by (rewrite ?length_insert; lia).
    fold (write_slots bpp (data_bits !!! q) (flat_array !!! q)).
    apply list_eq. intros j. rewrite !list_lookup_imap.
    destruct (decide (j = q)) as [->|Hne].
    + rewrite list_lookup_insert_eq by lia.
      destruct (lookup_lt_is_Some_2 flat_array q ltac:(lia)) as [v Hv].
      rewrite Hv, (list_lookup_total_correct _ _ _ Hv). cbn.
      rewrite decide_False by lia. rewrite decide_True by lia. reflexivity.
    + rewrite list_lookup_insert_ne by congruence.
      destruct (flat_array !! j) as [v|]; [|reflexivity]. cbn.
      repeat case_decide; try reflexivity; lia.
Qed.

(** What [_embed_bits_safe] returns, for every array, every list of frame
    bits and every positive [bits_per_pixel]: frame bit [k] is written
    into all [bits_per_pixel] slots of sample [k], for [k] below both the
    number of frame bits and the number of samples; the frame bits past
    the last sample are dropped. *)
Lemma embed_bits_safe_spec (img_array : ndarray) (data_bits : list Z) (bpp : Z) :
  0 < bpp ->
  _embed_bits_safe img_array data_bits bpp
  = {| shape := shape img_array;
       data := np_clip (embedded_samples bpp data_bits (data img_array)) |}.
Proof.
  intros Hbpp. unfold _embed_bits_safe. f_equal. f_equal.
  set (n := length (data img_array)). set (t := length data_bits).
  replace (Z.min (Z.of_nat n * bpp) (Z.of_nat t * bpp))
    with (Z.of_nat (n `min` t) * bpp) by nia.
  change 0 with (Z.of_nat 0 * bpp).
  rewrite embed_loop_samples by (try assumption; fold n t; lia).
  unfold embedded_samples. apply list_eq. intros j.
  rewrite !list_lookup_imap.
  destruct (data img_array !! j) as [v|] eqn:Hj; [|reflexivity]. cbn.
  apply lookup_lt_Some in Hj. fold n in Hj. fold t.
  repeat case_decide; try reflexivity; lia.
Qed.

(** On a byte, writing a bit into the low one, two or three slots gives a
    byte again, whose least significant bit is the bit written: checked on
    each of the 256 bytes. *)
Lemma write_slots_byte (bpp bit_value sample : Z) :
  bpp ∈ [1; 2; 3] -> bit_ok bit_value -> byte_ok sample ->
  byte_ok (write_slots bpp bit_value sample)
  /\ lsb (write_slots bpp bit_value sample) = bit_value.
Proof.
  intros Hbpp Hbit Hsample.
  assert (Hall : Forall (fun v =>
                   Forall (fun b =>
                     Forall (fun p => byte_ok (write_slots p b v)
                                      /\ lsb (write_slots p b v) = b)
                            [1; 2; 3])
                          [0; 1])
                        (seqZ 0 256)).
  { apply (bool_decide_unpack _). vm_compute. reflexivity. }
  rewrite Forall_forall in Hall.
  specialize (Hall sample). rewrite elem_of_seqZ in Hall.
  specialize (Hall ltac:(unfold byte_ok in Hsample; lia)).
  rewrite Forall_forall in Hall. specialize (Hall bit_value).
  assert (Hb : bit_value ∈ [0; 1]).
  { destruct Hbit as [->| ->]; [left|right; left]. }
  specialize (Hall Hb). rewrite Forall_forall in Hall. exact (Hall bpp Hbpp).
Qed.

Lemma np_clip_bytes (l : list Z) : Forall byte_ok l -> np_clip l = l.
Proof.
  intros H. unfold np_clip. rewrite <- (list_fmap_id l) at 2.
  apply Forall_fmap_ext_1. eapply Forall_impl; [exact H|].
  intros v Hv. unfold byte_ok in Hv. cbn. lia.
Qed.

Lemma embedded_samples_bytes (bpp : Z) (data_bits flat_array : list Z) :
  bpp ∈ [1; 2; 3] -> Forall bit_ok data_bits -> Forall byte_ok flat_array ->
  Forall byte_ok (embedded_samples bpp data_bits flat_array).
Proof.
  intros Hbpp Hbits Hflat. apply Forall_lookup. intros j v Hj.
  unfold embedded_samples in Hj. rewrite list_lookup_imap in Hj.
  destruct (flat_array !! j) as [w|] eqn:Hw; [|discriminate Hj].
  cbn in Hj. injection Hj as <-.
  pose proof (Forall_lookup_1 _ _ _ _ Hflat Hw) as Hwok.
  case_decide as Hlt; [|exact Hwok].
  apply write_slots_byte; try assumption.
  destruct (lookup_lt_is_Some_2 data_bits j Hlt) as [b Hb].
  rewrite (list_lookup_total_correct _ _ _ Hb).
  exact (Forall_lookup_1 _ _ _ _ Hbits Hb).
Qed.

(** The frame condition the code does ensure: every sample whose index is
    at least the number of frame bits is unchanged, whatever the
    bits-per-pixel value. *)
Lemma embed_leaves_samples_past_bits (img_array : ndarray)
    (data_bits : list Z) (bpp : Z) (j : nat) :
  bpp ∈ [1; 2; 3] -> Forall bit_ok data_bits -> Forall byte_ok (data img_array) ->
  (length data_bits <= j)%nat ->
  data (_embed_bits_safe img_array data_bits bpp) !! j = data img_array !! j.
Proof.
  intros Hbpp Hbits Hflat Hj.
  rewrite embed_bits_safe_spec
    by (repeat (apply elem_of_cons in Hbpp as [->|Hbpp]; [lia|]); inversion Hbpp).
  cbn [data]. rewrite np_clip_bytes by (apply embedded_samples_bytes; assumption).
  unfold embedded_samples. rewrite list_lookup_imap.
  destruct (data img_array !! j) as [v|]; [|reflexivity]. cbn.
  rewrite decide_False by lia. reflexivity.
Qed.

(** ** The embed loop against the algorithm of the specification *)

(** [C2] At two bits per pixel the loop of [_embed_bits_safe] does not lay
    the frame out as the specification says.  For the frame of the payload
    [0xFF] in the black cover the code writes frame bit [k] into both
    slots of sample [k] (samples 31, 38 and 40..47 become 3), where the
    specification puts frame bits [2k] and [2k+1] into sample [k]
    (sample 15 becomes 2, sample 19 becomes 1, samples 20..23 become 3). *)
Theorem embed_loop_departs_from_spec :
  data (_embed_bits_safe (np_array black_cover) (_bytes_to_bits ff_frame) 2)
  = replicate 31 0 ++ [3] ++ replicate 6 0 ++ [3; 0] ++ replicate 8 3
    ++ replicate 42 0
  /\ spec_embed (samples black_cover) (_bytes_to_bits ff_frame) 2
     = replicate 15 0 ++ [2] ++ replicate 3 0 ++ [1] ++ replicate 4 3
       ++ replicate 66 0.
Proof. split; vm_compute; reflexivity. Qed.

(** [C6] Samples past the range the frame needs are not left alone at two
    bits per pixel: the 48 frame bits of the payload [0xFF] need the
    samples below index [ceil(48/2) = 24], yet the code changes sample 31
    (and 38, and 40..47) of the black cover from 0 to 3. *)
Theorem embed_touches_samples_past_frame :
  let frame_bits := _bytes_to_bits ff_frame in
  let stego := _embed_bits_safe (np_array black_cover) frame_bits 2 in
  (Z.of_nat (length frame_bits) + 2 - 1) `div` 2 = 24
  /\ samples black_cover !! 31%nat = Some 0
  /\ data stego !! 31%nat = Some 3
  /\ data stego !! 47%nat = Some 3.
Proof. cbv zeta. split; [|split; [|split]]; vm_compute; reflexivity. Qed.

(** ** The capacity check of [embed_data] *)

Section EmbedFacts.

Variable zlib_compress : list Z -> Z -> option (list Z).

Lemma bpp_positive (bpp : Z) : bpp ∈ [1; 2; 3] -> 0 < bpp <= 3.
Proof.
  intros H. repeat (apply elem_of_cons in H as [->|H]; [lia|]). inversion H.
Qed.

(** [embed_data] on an image that opens, with a valid bits-per-pixel value
    and a body that fits the length field: the frame is five bytes longer
    than the body, it is refused exactly when its bit count exceeds
    [samples * bits_per_pixel - 40], and otherwise the saved array is the
    one the embed loop leaves. *)
Lemma embed_data_spec (img : image) (secret_data : list Z) (bpp : Z)
    (use_compression : bool) :
  let body := (compress_stage zlib_compress secret_data use_compression).1 in
  let img_array := np_array (normalize img) in
  let available := Z.of_nat (size img_array) * bpp - 40 in
  bpp ∈ [1; 2; 3] ->
  Z.of_nat (length body) < 2 ^ 32 ->
  exists frame,
    build_frame zlib_compress secret_data bpp use_compression = Some frame
    /\ length frame = (5 + length body)%nat
    /\ embed_data zlib_compress (Some img) secret_data bpp use_compression
       = if decide (8 * (5 + Z.of_nat (length body)) > available)
         then EmbedRefused
                (DataTooLarge (Z.max 0 (available `div` 8))
                              (5 + Z.of_nat (length body)))
         else Embedded
                {| shape := shape img_array;
                   data := np_clip (np_clip
                             (embedded_samples bpp (_bytes_to_bits frame)
                                (data img_array))) |}
                (length body).
Proof.
  intros body img_array available Hbpp Hlen.
  destruct (build_frame_header zlib_compress secret_data bpp use_compression Hlen)
    as (b0 & b1 & b2 & b3 & Hframe & _).
  fold body in Hframe. eexists. split; [exact Hframe|].
  split; [rewrite length_app; reflexivity|].
  unfold embed_data. rewrite decide_False by (intros Hn; exact (Hn Hbpp)).
  rewrite Hframe. cbn [calculate_capacity available_bits available_bytes].
  fold img_array. fold available.
  rewrite length_bytes_to_bits, length_app. cbn [length].
  replace (Z.of_nat (8 * (5 + length body)))
    with (8 * (5 + Z.of_nat (length body))) by lia.
  replace (Z.of_nat (5 + length body))
    with (5 + Z.of_nat (length body)) by lia.
  case_decide; [reflexivity|].
  rewrite embed_bits_safe_spec by (apply bpp_positive in Hbpp; lia).
  reflexivity.
Qed.

(** The largest body [embed_data] accepts is five bytes short of the
    reported [available_bytes]: a body of [available_bytes - 4] bytes or
    more is refused, one of exactly [available_bytes] included, and so is
    one of [available_bytes + 1]; the message carries [available_bytes] and
    the frame length. *)
Lemma embed_refuses_near_capacity (img : image) (secret_data : list Z)
    (bpp : Z) (use_compression : bool) (r : capacity_info) :
  let body := (compress_stage zlib_compress secret_data use_compression).1 in
  bpp ∈ [1; 2; 3] ->
  Z.of_nat (length body) < 2 ^ 32 ->
  calculate_capacity (Some img) bpp = inl r ->
  available_bytes r - 4 <= Z.of_nat (length body) ->
  embed_data zlib_compress (Some img) secret_data bpp use_compression
  = EmbedRefused (DataTooLarge (available_bytes r)
                               (5 + Z.of_nat (length body))).
Proof.
  intros body Hbpp Hlen Hcap Hnear.
  destruct (embed_data_spec img secret_data bpp use_compression Hbpp Hlen)
    as (frame & _ & _ & Hembed).
  rewrite Hembed. clear Hembed. fold body.
  injection Hcap as <-. cbn [available_bytes] in *.
  set (available := Z.of_nat (size (np_array (normalize img))) * bpp - 40) in *.
  rewrite decide_True; [reflexivity|].
  pose proof (Z.mod_pos_bound available 8 ltac:(lia)).
  pose proof (Z.div_mod available 8 ltac:(lia)).
  lia.
Qed.

(** A body of at most [available_bytes - 5] bytes is accepted. *)
Lemma embed_accepts_below_capacity (img : image) (secret_data : list Z)
    (bpp : Z) (use_compression : bool) (r : capacity_info) :
  let body := (compress_stage zlib_compress secret_data use_compression).1 in
  bpp ∈ [1; 2; 3] ->
  calculate_capacity (Some img) bpp = inl r ->
  Z.of_nat (length body) <= available_bytes r - 5 ->
  Z.of_nat (length body) < 2 ^ 32 ->
  exists stego,
    embed_data zlib_compress (Some img) secret_data bpp use_compression
    = Embedded stego (length body).
Proof.
  intros body Hbpp Hcap Hfit Hlen.
  destruct (embed_data_spec img secret_data bpp use_compression Hbpp Hlen)
    as (frame & _ & _ & Hembed).
  rewrite Hembed. clear Hembed. fold body.
  injection Hcap as <-. cbn [available_bytes] in *.
  set (available := Z.of_nat (size (np_array (normalize img))) * bpp - 40) in *.
  rewrite decide_False; [eexists; reflexivity|].
  pose proof (Z.mod_pos_bound available 8 ltac:(lia)).
  pose proof (Z.div_mod available 8 ltac:(lia)).
  lia.
Qed.

End EmbedFacts.

(** [C4] A payload of exactly [available_bytes] bytes is refused.  A cover
    of 16 pixels (48 samples) at one bit per pixel reports
    [available_bytes = 1]; embedding one byte fails with
    "Data too large. Available: 1B, Required: 6B", because the 40 header
    bits are taken off the capacity and counted again in the frame. *)
Theorem exact_capacity_payload_refused :
  calculate_capacity (Some cover_16_pixels) 1
  = inl {| pixels := 48; channels := 3; bits_per_pixel := 1;
           available_bytes := 1; available_bits := 8; header_bits := 40;
           image_mode := RGB; image_size := (4%nat, 4%nat) |}
  /\ embed_data zlib_unused_compress (Some cover_16_pixels) [65] 1 false
     = EmbedRefused (DataTooLarge 1 6)
  /\ embed_data zlib_unused_compress (Some cover_16_pixels) [65] 1 true
     = EmbedRefused (DataTooLarge 1 6).
Proof.
  split; [vm_compute; reflexivity|].
  split; [vm_compute; reflexivity|].
  vm_compute; reflexivity.
Qed.

(** ** Round trip at one bit per pixel *)

(** Slot 0 of sample [j] of the embedded array holds frame bit [j]. *)
Lemma embedded_lsb_lookup (bpp : Z) (data_bits flat_array : list Z) (j : nat) :
  bpp ∈ [1; 2; 3] -> Forall bit_ok data_bits -> Forall byte_ok flat_array ->
  (j < length data_bits)%nat -> (j < length flat_array)%nat ->
  lsb <$> embedded_samples bpp data_bits flat_array !! j = data_bits !! j.
Proof.
  intros Hbpp Hbits Hflat Hjb Hjf.
  unfold embedded_samples. rewrite list_lookup_imap.
  destruct (lookup_lt_is_Some_2 flat_array j Hjf) as [v Hv].
  destruct (lookup_lt_is_Some_2 data_bits j Hjb) as [b Hb].
  rewrite Hv, Hb. cbn. rewrite decide_True by exact Hjb.
  rewrite (list_lookup_total_correct _ _ _ Hb). f_equal.
  apply write_slots_byte; try assumption.
  - exact (Forall_lookup_1 _ _ _ _ Hbits Hb).
  - exact (Forall_lookup_1 _ _ _ _ Hflat Hv).
Qed.

Lemma embedded_lsb_slice (bpp : Z) (data_bits flat_array : list Z) (a k : nat) :
  bpp ∈ [1; 2; 3] -> Forall bit_ok data_bits -> Forall byte_ok flat_array ->
  (a + k <= length data_bits)%nat -> (a + k <= length flat_array)%nat ->
  lsb <$> take k (drop a (embedded_samples bpp data_bits flat_array))
  = take k (drop a data_bits).
Proof.
  intros Hbpp Hbits Hflat Hb Hf. apply list_eq. intros j.
  rewrite list_lookup_fmap.
  destruct (decide (j < k)%nat) as [Hj|Hj].
  - rewrite !lookup_take_lt, !lookup_drop by exact Hj.
    apply embedded_lsb_lookup; try assumption; lia.
  - rewrite !lookup_take_ge by lia. reflexivity.
Qed.

Lemma length_embedded_samples (bpp : Z) (data_bits flat_array : list Z) :
  length (embedded_samples bpp data_bits flat_array) = length flat_array.
Proof. apply length_imap. Qed.

Lemma normalize_ok (img : image) :
  image_ok img ->
  image_ok (normalize img)
  /\ length (samples (normalize img)) = size (np_array (normalize img)).
Proof.
  intros [Hlen Hbytes].
  assert (Hok : image_ok (normalize img)).
  { destruct img as [[] w h s]; cbn in *; [|split; assumption..].
    split.
    - clear Hbytes. cbv [normalize convert_RGB mode samples width height
                           decide decide_rel]. cbn.
      transitivity (3 * length s)%nat; [|lia].
      clear Hlen. induction s as [|v s IH]; [reflexivity|].
      cbn [mbind list_bind app length]. cbn [mbind] in IH. lia.
    - clear Hlen. cbv [normalize convert_RGB mode samples width height
             decide decide_rel]. cbn.
      induction Hbytes as [|v s Hv _ IH]; [apply Forall_nil_2|].
      cbn [mbind list_bind app]. repeat (apply Forall_cons_2; [exact Hv|]).
      exact IH. }
  split; [exact Hok|].
  rewrite size_np_array_normalize. destruct Hok as [Hl _]. rewrite Hl.
  destruct img as [[] w h s]; reflexivity.
Qed.

(** At one bit per pixel the body loop reads the least significant bit of
    the samples from index 40 on. *)
Lemma body_bits_one_bit (flat_array : list Z) (k : nat) :
  (40 + k <= length flat_array)%nat ->
  (fun i => Z.land ((flat_array !!! Z.to_nat (i `div` 1)) ≫ (i `mod` 1)) 1)
    <$> seqZ 40 (Z.of_nat k)
  = lsb <$> take k (drop 40 flat_array).
Proof.
  intros Hlen. apply list_eq. intros j. rewrite !list_lookup_fmap.
  destruct (decide (j < k)%nat) as [Hj|Hj].
  - rewrite lookup_seqZ_lt by lia.
    rewrite lookup_take_lt, lookup_drop by exact Hj.
    destruct (lookup_lt_is_Some_2 flat_array (40 + j) ltac:(lia)) as [v Hv].
    rewrite Hv. cbn. rewrite Z.div_1_r, Z.mod_1_r, Z.shiftr_0_r.
    replace (Z.to_nat (40 + Z.of_nat j)) with (40 + j)%nat by lia.
    now rewrite (list_lookup_total_correct _ _ _ Hv).
  - rewrite lookup_seqZ_ge by lia. rewrite lookup_take_ge by lia. reflexivity.
Qed.

Lemma samples_saved_png (a : ndarray) : samples (normalize (saved_png a)) = data a.
Proof. reflexivity. Qed.

Lemma Embedded_inj (a b : ndarray) (n m : nat) :
  Embedded a n = Embedded b m -> a = b.
Proof. intros H. now injection H. Qed.

Section RoundTrip.

Variable zlib_compress : list Z -> Z -> option (list Z).
Variable zlib_decompress : list Z -> option (list Z).

(** [zlib.compress] returns [bytes], and [zlib.decompress] undoes it. *)
Hypothesis zlib_bytes :
  forall x level y, zlib_compress x level = Some y -> Forall byte_ok y.
Hypothesis zlib_inverse :
  forall x level y, zlib_compress x level = Some y -> zlib_decompress y = Some x.

(** For one bit per pixel the code does round-trip: whenever [embed_data]
    accepts the payload of an 8-bit greyscale or RGB cover, and the body is
    within the 10,000,000 bytes [extract_data] allows, extraction from the
    saved image returns the payload, compressed or not. *)
Lemma round_trip_one_bit (img : image) (secret_data : list Z)
    (use_compression : bool) (stego : ndarray) (n : nat) :
  image_ok img -> mode img ≠ RGBA -> Forall byte_ok secret_data ->
  Z.of_nat (length (compress_stage zlib_compress secret_data use_compression).1)
  <= 10000000 ->
  embed_data zlib_compress (Some img) secret_data 1 use_compression
  = Embedded stego n ->
  extract_data zlib_decompress (Some (saved_png stego)) = Extracted secret_data.
Proof.
  intros Hok _ Hsecret Hsmall Hembed.
  pose proof (compress_stage_spec zlib_compress secret_data use_compression)
    as Hstage. cbn zeta in Hstage.
  set (body := (compress_stage zlib_compress secret_data use_compression).1) in *.
  set (flag := (compress_stage zlib_compress secret_data use_compression).2) in *.
  assert (Hlen : Z.of_nat (length body) < 2 ^ 32) by lia.
  assert (Hbpp : 1 ∈ [1; 2; 3]) by left.
  assert (Hbody : Forall byte_ok body).
  { destruct Hstage as [(_ & _ & _ & Hz & _)|[_ ->]]; [|exact Hsecret].
    exact (zlib_bytes _ _ _ Hz). }
  destruct (normalize_ok img Hok) as [[_ Hflat] Hsize].
  destruct (build_frame_header zlib_compress secret_data 1 use_compression Hlen)
    as (b0 & b1 & b2 & b3 & Hframe & Hheader & Hsum).
  fold body flag in Hframe, Hheader.
  destruct (embed_data_spec zlib_compress img secret_data 1 use_compression
              Hbpp Hlen) as (frame & Hframe' & _ & Hspec).
  rewrite Hframe in Hframe'. injection Hframe' as <-.
  rewrite Hspec in Hembed. clear Hspec. fold body in Hembed.
  case_decide as Hcap; [discriminate Hembed|].
  apply Embedded_inj in Hembed. subst stego.
  rewrite <- Hsize in Hcap.
  change (data (np_array (normalize img))) with (samples (normalize img)).
  set (flat_array := samples (normalize img)) in *.
  set (metadata := Z.lor (flag ≪ 7) (Z.land 1 7)) in *.
  set (data_bits := _bytes_to_bits ([b0; b1; b2; b3; metadata] ++ body)).
  assert (Hbits : Forall bit_ok data_bits) by apply bytes_to_bits_bit_ok.
  assert (Hsplit : data_bits
                   = _bytes_to_bits [b0; b1; b2; b3]
                     ++ byte_bits metadata ++ _bytes_to_bits body).
  { unfold data_bits.
    change ([b0; b1; b2; b3; metadata] ++ body)
      with ([b0; b1; b2; b3] ++ metadata :: body).
    now rewrite bytes_to_bits_app, bytes_to_bits_cons. }
  assert (Hbl : length data_bits = (40 + 8 * length body)%nat).
  { rewrite Hsplit, !length_app, !length_bytes_to_bits, length_byte_bits.
    cbn [length]. lia. }
  change (_bytes_to_bits (b0 :: b1 :: b2 :: b3 :: metadata :: body))
    with data_bits.
  do 2 rewrite (np_clip_bytes (embedded_samples 1 data_bits flat_array))
    by (apply embedded_samples_bytes; assumption).
  set (stego_flat := embedded_samples 1 data_bits flat_array).
  assert (Hsl : length stego_flat = length flat_array)
    by apply length_embedded_samples.
  (* the header the stego image spells *)
  assert (Hhl : header_length stego_flat = Z.of_nat (length body)).
  { unfold header_length. rewrite <- (drop_0 stego_flat).
    unfold stego_flat. rewrite embedded_lsb_slice by (try assumption; lia).
    rewrite drop_0, Hsplit, take_app_length'
      by (rewrite length_bytes_to_bits; reflexivity).
    rewrite bits_value_bytes_to_bits_4; [exact Hsum|].
    apply (Forall_app byte_ok [b0; b1; b2; b3] [metadata]) in Hheader as [H _].
    exact H. }
  assert (Hmeta : byte_ok metadata).
  { apply (Forall_app byte_ok [b0; b1; b2; b3] [metadata]) in Hheader as [_ H].
    rewrite Forall_singleton in H. exact H. }
  assert (Hhm : header_metadata stego_flat = metadata).
  { unfold header_metadata, stego_flat.
    rewrite embedded_lsb_slice by (try assumption; lia).
    rewrite Hsplit, drop_app_length'
      by (rewrite length_bytes_to_bits; reflexivity).
    rewrite take_app_length' by (rewrite length_byte_bits; reflexivity).
    apply bits_value_byte_bits, Hmeta. }
  assert (Hflag : flag = 0 \/ flag = 1) by tauto.
  assert (Hhb : header_bits_per_pixel stego_flat = 1).
  { unfold header_bits_per_pixel. rewrite Hhm. unfold metadata.
    destruct Hflag as [-> | ->]; reflexivity. }
  assert (Hhf : header_compression_flag stego_flat = flag).
  { unfold header_compression_flag. rewrite Hhm. unfold metadata.
    destruct Hflag as [-> | ->]; reflexivity. }
  rewrite extract_data_parsed by (rewrite samples_saved_png; cbn [data]; lia).
  rewrite samples_saved_png. cbn [data]. fold stego_flat.
  rewrite Hhl, Hhb, Hhf. rewrite decide_False by lia.
  unfold extract_body. rewrite decide_False by lia.
  rewrite body_loop_spec by lia.
  replace (Z.of_nat (length body) * 8) with (Z.of_nat (8 * length body)) by lia.
  rewrite body_bits_one_bit by lia.
  unfold stego_flat. rewrite embedded_lsb_slice by (try assumption; lia).
  replace (drop 40 data_bits) with (_bytes_to_bits body).
  2:{ rewrite Hsplit, app_assoc, drop_app_length'; [reflexivity|].
      rewrite length_app, length_bytes_to_bits, length_byte_bits. reflexivity. }
  rewrite take_ge by (rewrite length_bytes_to_bits; lia).
  rewrite bits_to_bytes_of_bytes by exact Hbody.
  rewrite take_ge by lia.
  destruct Hstage as [(Hf & _ & _ & Hz & _)|[Hf Hb]].
  - rewrite decide_True by exact Hf. now rewrite (zlib_inverse _ _ _ Hz).
  - rewrite decide_False by lia. now rewrite Hb.
Qed.

End RoundTrip.

(** [C1] Embedding and then extracting does not return the payload at two
    bits per pixel.  The capacity report of the black cover gives room for
    17 bytes; embedding the single byte [0xFF] succeeds, and extraction
    from the saved image succeeds too but returns the byte [0x00]. *)
Theorem round_trip_broken_at_two_bits :
  calculate_capacity (Some black_cover) 2
  = inl {| pixels := 90; channels := 3; bits_per_pixel := 2;
           available_bytes := 17; available_bits := 140; header_bits := 40;
           image_mode := RGB; image_size := (30%nat, 1%nat) |}
  /\ embed_data zlib_unused_compress (Some black_cover) [255] 2 false
     = Embedded black_stego 1
  /\ extract_data zlib_unused_decompress (Some (saved_png black_stego))
     = Extracted [0].
Proof.
  split; [vm_compute; reflexivity|].
  split; [vm_compute; reflexivity|].
  vm_compute; reflexivity.
Qed.

(** * Further properties of the engine *)

(** ** [_bits_to_bytes] on any list of bits *)

Lemma byte_bits_bits_value (h : list Z) :
  length h = 8%nat -> Forall bit_ok h -> byte_bits (bits_value h) = h.
Proof.
  intros Hlen Hh.
  do 8 (destruct h as [|? h]; [discriminate Hlen|]).
  destruct h; [|discriminate Hlen].
  repeat match goal with
         | H : Forall _ (_ :: _) |- _ => apply Forall_cons in H as [? H]
         end.
  repeat match goal with
         | H : bit_ok _ |- _ => destruct H as [-> | ->]
         end; reflexivity.
Qed.

(** A list of [8*n] bits packs into [n] bytes that spell the same bits. *)
Lemma pack_all_aligned (n : nat) (bits : list Z) :
  length bits = (8 * n)%nat -> Forall bit_ok bits ->
  length (pack_all bits) = n
  /\ Forall byte_ok (pack_all bits)
  /\ _bytes_to_bits (pack_all bits) = bits.
Proof.
  revert bits. induction n as [|n IH]; intros bits Hlen Hbits.
  - destruct bits; [|discriminate Hlen]. repeat split. apply Forall_nil_2.
  - rewrite <- (take_drop 8 bits) in Hbits |- *.
    apply Forall_app in Hbits as [Hhead Htail].
    assert (Hh : length (take 8 bits) = 8%nat) by (rewrite length_take; lia).
    destruct (IH (drop 8 bits)) as (IHlen & IHbytes & IHbits);
      [rewrite length_drop; lia|exact Htail|].
    rewrite pack_all_app8 by exact Hh.
    rewrite pack_byte_value by assumption.
    split; [cbn [length]; now rewrite IHlen|]. split.
    + apply Forall_cons_2; [|exact IHbytes].
      pose proof (bits_value_bound (take 8 bits) Hhead) as Hb.
      rewrite Hh in Hb. exact Hb.
    + rewrite bytes_to_bits_cons, IHbits.
      now rewrite byte_bits_bits_value by assumption.
Qed.

Lemma length_pad_loop (bits : list Z) :
  exists n, length (pad_loop 7 bits) = (8 * n)%nat
            /\ n = ((length bits + 7) / 8)%nat.
Proof.
  exists ((length bits + 7) / 8)%nat. split; [|reflexivity].
  rewrite pad_loop_spec, length_app, length_replicate.
  pose proof (Nat.div_mod_eq (length bits) 8) as Hdm.
  pose proof (Nat.mod_upper_bound (length bits) 8 ltac:(lia)) as Hb.
  destruct (decide (length bits mod 8 = 0)%nat) as [E|E].
  - rewrite E in *. change ((8 - 0) mod 8)%nat with 0%nat.
    replace (length bits + 7)%nat with (7 + (length bits / 8) * 8)%nat by lia.
    rewrite Nat.div_add by lia. change (7 / 8)%nat with 0%nat. lia.
  - rewrite (Nat.mod_small (8 - length bits mod 8) 8) by lia.
    replace (length bits + 7)%nat
      with ((length bits mod 8 - 1) + (length bits / 8 + 1) * 8)%nat by lia.
    rewrite Nat.div_add by lia.
    rewrite (Nat.div_small (length bits mod 8 - 1) 8) by lia. lia.
Qed.

(** [X1] [_bits_to_bytes] never fails on a list of bits (zeros and ones) of
    any length: it returns [ceil(len/8)] bytes, and turning these bytes
    back into bits gives the input followed by the zero bits it was padded
    with, up to the next multiple of eight. *)
Theorem bits_to_bytes_pads (bits : list Z) :
  Forall bit_ok bits ->
  exists bytes,
    _bits_to_bytes bits = Some bytes
    /\ length bytes = ((length bits + 7) / 8)%nat
    /\ Forall byte_ok bytes
    /\ _bytes_to_bits bytes
       = bits ++ replicate ((8 - length bits mod 8) mod 8)%nat 0.
Proof.
  intros Hbits.
  destruct (length_pad_loop bits) as (n & Hlen & Hn).
  assert (Hpadded : Forall bit_ok (pad_loop 7 bits)).
  { rewrite pad_loop_spec. apply Forall_app. split; [exact Hbits|].
    apply Forall_replicate. now left. }
  destruct (pack_all_aligned n (pad_loop 7 bits) Hlen Hpadded)
    as (Hl & Hbytes & Hback).
  exists (pack_all (pad_loop 7 bits)).
  rewrite bits_to_bytes_unfold. unfold bytes_of_ints.
  rewrite decide_True by exact Hbytes.
  split; [reflexivity|]. split; [now rewrite Hl|]. split; [exact Hbytes|].
  rewrite Hback. apply pad_loop_spec.
Qed.

Lemma bits_to_bytes_pads_witness :
  Forall bit_ok [1; 0; 1]
  /\ exists bytes,
       _bits_to_bytes [1; 0; 1] = Some bytes
       /\ length bytes = 1%nat
       /\ Forall byte_ok bytes
       /\ _bytes_to_bits bytes = [1; 0; 1] ++ replicate 5 0.
Proof.
  assert (H : Forall bit_ok [1; 0; 1]).
  { repeat (apply Forall_cons_2; [unfold bit_ok; lia|]). apply Forall_nil_2. }
  split; [exact H|]. exact (bits_to_bytes_pads [1; 0; 1] H).
Defined.

(** ** The array [_embed_bits_safe] returns *)

(** Writing a bit into the low [p] slots of a byte keeps the bits above
    them and sets each slot to the bit; a second write replaces the first:
    checked on each of the 256 bytes. *)
Lemma write_slots_closed_form (bpp b v : Z) :
  bpp ∈ [1; 2; 3] -> bit_ok b -> byte_ok v ->
  write_slots bpp b v = v `div` 2 ^ bpp * 2 ^ bpp + b * (2 ^ bpp - 1).
Proof.
  intros Hbpp Hbit Hv.
  assert (Hall : Forall (fun v =>
                   Forall (fun b =>
                     Forall (fun p => write_slots p b v
                                      = v `div` 2 ^ p * 2 ^ p + b * (2 ^ p - 1))
                            [1; 2; 3])
                          [0; 1])
                        (seqZ 0 256)).
  { apply (bool_decide_unpack _). vm_compute. reflexivity. }
  rewrite Forall_forall in Hall.
  specialize (Hall v). rewrite elem_of_seqZ in Hall.
  specialize (Hall ltac:(unfold byte_ok in Hv; lia)).
  rewrite Forall_forall in Hall. specialize (Hall b).
  assert (Hb : b ∈ [0; 1]) by (destruct Hbit as [->| ->]; [left|right; left]).
  specialize (Hall Hb). rewrite Forall_forall in Hall. exact (Hall bpp Hbpp).
Qed.

Lemma write_slots_twice (bpp b1 b2 v : Z) :
  bpp ∈ [1; 2; 3] -> bit_ok b1 -> bit_ok b2 -> byte_ok v ->
  write_slots bpp b2 (write_slots bpp b1 v) = write_slots bpp b2 v.
Proof.
  intros Hbpp H1 H2 Hv.
  assert (Hall : Forall (fun v =>
                   Forall (fun b1 =>
                     Forall (fun b2 =>
                       Forall (fun p => write_slots p b2 (write_slots p b1 v)
                                        = write_slots p b2 v)
                              [1; 2; 3])
                            [0; 1])
                          [0; 1])
                        (seqZ 0 256)).
  { apply (bool_decide_unpack _). vm_compute. reflexivity. }
  rewrite Forall_forall in Hall.
  specialize (Hall v). rewrite elem_of_seqZ in Hall.
  specialize (Hall ltac:(unfold byte_ok in Hv; lia)).
  assert (Hin : forall b, bit_ok b -> b ∈ [0; 1])
    by (intros b [->| ->]; [left|right; left]).
  rewrite Forall_forall in Hall. specialize (Hall b1 (Hin b1 H1)).
  rewrite Forall_forall in Hall. specialize (Hall b2 (Hin b2 H2)).
  rewrite Forall_forall in Hall. exact (Hall bpp Hbpp).
Qed.

(** [X2] The array [_embed_bits_safe] returns for a byte array, a list of
    frame bits and 1, 2 or 3 bits per pixel: same shape, same number of
    samples, and sample [k] is the cover sample with its low
    [bits_per_pixel] bits all replaced by frame bit [k] when there is such
    a bit (the bits above are kept), and the cover sample itself when
    [k] is past the last frame bit. *)
Theorem embed_bits_safe_closed_form (img_array : ndarray) (data_bits : list Z)
    (bpp : Z) :
  bpp ∈ [1; 2; 3] -> Forall bit_ok data_bits -> Forall byte_ok (data img_array) ->
  let stego := _embed_bits_safe img_array data_bits bpp in
  shape stego = shape img_array
  /\ length (data stego) = length (data img_array)
  /\ forall (k : nat) (v : Z),
       data img_array !! k = Some v ->
       data stego !! k
       = Some (match data_bits !! k with
               | Some b => v `div` 2 ^ bpp * 2 ^ bpp + b * (2 ^ bpp - 1)
               | None => v
               end).
Proof.
  intros Hbpp Hbits Hflat stego. unfold stego.
  rewrite embed_bits_safe_spec by (apply bpp_positive in Hbpp; lia).
  cbn [shape data].
  rewrite np_clip_bytes by (apply embedded_samples_bytes; assumption).
  split; [reflexivity|]. split; [apply length_embedded_samples|].
  intros k v Hv. unfold embedded_samples.
  rewrite list_lookup_imap, Hv. cbn. f_equal.
  case_decide as Hk.
  - destruct (lookup_lt_is_Some_2 data_bits k Hk) as [b Hb].
    rewrite Hb, (list_lookup_total_correct _ _ _ Hb).
    apply write_slots_closed_form; try assumption.
    + exact (Forall_lookup_1 _ _ _ _ Hbits Hb).
    + exact (Forall_lookup_1 _ _ _ _ Hflat Hv).
  - rewrite lookup_ge_None_2 by lia. reflexivity.
Qed.

Lemma embed_bits_safe_closed_form_witness :
  data (_embed_bits_safe three_samples [1; 0] 2) !! 0%nat = Some 203
  /\ data (_embed_bits_safe three_samples [1; 0] 2) !! 1%nat = Some 4
  /\ data (_embed_bits_safe three_samples [1; 0] 2) !! 2%nat = Some 90.
Proof.
  assert (Hbpp : 2 ∈ [1; 2; 3]) by (right; left).
  assert (Hbits : Forall bit_ok [1; 0]).
  { repeat (apply Forall_cons_2; [unfold bit_ok; lia|]). apply Forall_nil_2. }
  assert (Hflat : Forall byte_ok (data three_samples)).
  { repeat (apply Forall_cons_2; [unfold byte_ok; lia|]). apply Forall_nil_2. }
  destruct (embed_bits_safe_closed_form three_samples [1; 0] 2 Hbpp Hbits Hflat)
    as (_ & _ & H).
  split; [exact (H 0%nat 200 eq_refl)|].
  split; [exact (H 1%nat 7 eq_refl)|exact (H 2%nat 90 eq_refl)].
Defined.

(** [X3] Frame bits past the last sample are silently dropped: for a byte
    array, a list of frame bits and 1, 2 or 3 bits per pixel,
    [_embed_bits_safe] uses only as many frame bits as the array has
    samples, and returns the same array for the frame cut to that
    length. *)
Theorem embed_drops_bits_past_samples (img_array : ndarray)
    (data_bits : list Z) (bpp : Z) :
  bpp ∈ [1; 2; 3] -> Forall bit_ok data_bits -> Forall byte_ok (data img_array) ->
  _embed_bits_safe img_array data_bits bpp
  = _embed_bits_safe img_array (take (length (data img_array)) data_bits) bpp.
Proof.
  intros Hbpp _ _. apply bpp_positive in Hbpp.
  rewrite !embed_bits_safe_spec by lia.
  f_equal. f_equal. unfold embedded_samples. apply list_eq. intros k.
  rewrite !list_lookup_imap.
  destruct (data img_array !! k) as [v|] eqn:Hv; [|reflexivity]. cbn.
  apply lookup_lt_Some in Hv. rewrite length_take.
  rewrite lookup_total_take_lt by exact Hv.
  repeat case_decide; try reflexivity; lia.
Qed.

Lemma embed_drops_bits_past_samples_witness :
  _embed_bits_safe three_samples [1; 0; 1; 1; 0] 2
  = _embed_bits_safe three_samples [1; 0; 1] 2.
Proof.
  apply (embed_drops_bits_past_samples three_samples [1; 0; 1; 1; 0] 2).
  - right; left.
  - repeat (apply Forall_cons_2; [unfold bit_ok; lia|]). apply Forall_nil_2.
  - repeat (apply Forall_cons_2; [unfold byte_ok; lia|]). apply Forall_nil_2.
Defined.

(** [X4] Embedding into an array that already carries a frame replaces
    that frame: when the new frame has at least as many bits as the old
    one, the result is the same as embedding the new frame into the
    original array. *)
Theorem embed_overwrites_earlier_frame (img_array : ndarray)
    (old_bits new_bits : list Z) (bpp : Z) :
  bpp ∈ [1; 2; 3] ->
  Forall bit_ok old_bits -> Forall bit_ok new_bits ->
  Forall byte_ok (data img_array) ->
  (length old_bits <= length new_bits)%nat ->
  _embed_bits_safe (_embed_bits_safe img_array old_bits bpp) new_bits bpp
  = _embed_bits_safe img_array new_bits bpp.
Proof.
  intros Hbpp Hold Hnew Hflat Hlen.
  assert (Hpos : 0 < bpp) by (apply bpp_positive in Hbpp; lia).
  rewrite !embed_bits_safe_spec by exact Hpos. cbn [shape data].
  rewrite (np_clip_bytes (embedded_samples bpp old_bits (data img_array)))
    by (apply embedded_samples_bytes; assumption).
  f_equal. f_equal. unfold embedded_samples. apply list_eq. intros k.
  rewrite !list_lookup_imap.
  destruct (data img_array !! k) as [v|] eqn:Hv; [|reflexivity]. cbn.
  pose proof (Forall_lookup_1 _ _ _ _ Hflat Hv) as Hvok. f_equal.
  destruct (decide (k < length old_bits)%nat) as [Hk|Hk].
  - destruct (lookup_lt_is_Some_2 old_bits k Hk) as [b1 Hb1].
    destruct (lookup_lt_is_Some_2 new_bits k ltac:(lia)) as [b2 Hb2].
    rewrite (list_lookup_total_correct _ _ _ Hb1).
    rewrite (list_lookup_total_correct _ _ _ Hb2).
    repeat case_decide; try lia.
    apply write_slots_twice; try assumption.
    + exact (Forall_lookup_1 _ _ _ _ Hold Hb1).
    + exact (Forall_lookup_1 _ _ _ _ Hnew Hb2).
  - reflexivity.
Qed.

Lemma embed_overwrites_earlier_frame_witness :
  _embed_bits_safe (_embed_bits_safe three_samples [1; 1] 3) [0; 1; 0] 3
  = _embed_bits_safe three_samples [0; 1; 0] 3.
Proof.
  apply embed_overwrites_earlier_frame.
  - right; right; left.
  - repeat (apply Forall_cons_2; [unfold bit_ok; lia|]). apply Forall_nil_2.
  - repeat (apply Forall_cons_2; [unfold bit_ok; lia|]). apply Forall_nil_2.
  - repeat (apply Forall_cons_2; [unfold byte_ok; lia|]). apply Forall_nil_2.
  - cbn [length]. lia.
Defined.

(** ** What [embed_data] accepts and what it saves *)

Section EmbedOutcome.

Variable zlib_compress : list Z -> Z -> option (list Z).

Lemma build_frame_built (secret_data : list Z) (bpp : Z)
    (use_compression : bool) (frame : list Z) :
  build_frame zlib_compress secret_data bpp use_compression = Some frame ->
  Z.of_nat (length (compress_stage zlib_compress secret_data use_compression).1)
  < 2 ^ 32.
Proof.
  unfold build_frame. intros Hbuilt.
  destruct (compress_stage zlib_compress secret_data use_compression)
    as [body flag]. cbn [fst].
  unfold struct_pack_IB in Hbuilt.
  case_decide as Hrange; [lia|discriminate Hbuilt].
Qed.

(** A successful [embed_data] had an image that opened, a valid
    bits-per-pixel value and a body within the length field. *)
Lemma embed_success_inv (file : option image) (secret_data : list Z) (bpp : Z)
    (use_compression : bool) (stego : ndarray) (n : nat) :
  embed_data zlib_compress file secret_data bpp use_compression
  = Embedded stego n ->
  (exists img, file = Some img)
  /\ bpp ∈ [1; 2; 3]
  /\ Z.of_nat (length (compress_stage zlib_compress secret_data
                         use_compression).1) < 2 ^ 32.
Proof.
  unfold embed_data. intros H.
  case_decide as Hbpp; [discriminate H|].
  destruct file as [img|]; [|discriminate H].
  destruct (build_frame zlib_compress secret_data bpp use_compression)
    as [frame|] eqn:Hframe; [|discriminate H].
  split; [now exists img|]. split.
  - destruct (decide (bpp ∈ [1; 2; 3])); [assumption|contradiction].
  - exact (build_frame_built _ _ _ _ Hframe).
Qed.

(** [X5] Which payloads [embed_data] accepts, for an 8-bit greyscale or
    RGB cover, a valid bits-per-pixel value and a body (the payload after
    the compression stage) within the 32-bit length field: exactly the bodies
    of at most [available_bytes - 5] bytes, where [available_bytes] is
    what [calculate_capacity] reports; every longer body is refused with
    "Data too large", the reported [available_bytes] and the frame length
    [len(body) + 5]. *)
Theorem embed_accepts_iff (img : image) (secret_data : list Z) (bpp : Z)
    (use_compression : bool) (r : capacity_info) :
  let body := (compress_stage zlib_compress secret_data use_compression).1 in
  image_ok img -> mode img ≠ RGBA ->
  bpp ∈ [1; 2; 3] ->
  Z.of_nat (length body) < 2 ^ 32 ->
  calculate_capacity (Some img) bpp = inl r ->
  ((exists stego,
      embed_data zlib_compress (Some img) secret_data bpp use_compression
      = Embedded stego (length body))
   <-> Z.of_nat (length body) <= available_bytes r - 5)
  /\ (available_bytes r - 5 < Z.of_nat (length body) ->
      embed_data zlib_compress (Some img) secret_data bpp use_compression
      = EmbedRefused (DataTooLarge (available_bytes r)
                                   (5 + Z.of_nat (length body)))).
Proof.
  intros body _ _ Hbpp Hlen Hcap.
  destruct (embed_data_spec zlib_compress img secret_data bpp use_compression
              Hbpp Hlen) as (frame & _ & _ & Hembed).
  fold body in Hembed. rewrite Hembed. clear Hembed.
  injection Hcap as <-. cbn [available_bytes].
  set (available := Z.of_nat (size (np_array (normalize img))) * bpp - 40).
  pose proof (Z.mod_pos_bound available 8 ltac:(lia)) as Hmod.
  pose proof (Z.div_mod available 8 ltac:(lia)) as Hdiv.
  split; [split|].
  - intros [stego Hok]. case_decide as Hcheck; [discriminate Hok|]. lia.
  - intros Hfit. rewrite decide_False by lia. eexists. reflexivity.
  - intros Hbig. rewrite decide_True by lia. reflexivity.
Qed.


(** How far one sample moves when a bit is written into its low slots:
    checked on each of the 256 bytes. *)
Lemma write_slots_distance (bpp b v : Z) :
  bpp ∈ [1; 2; 3] -> bit_ok b -> byte_ok v ->
  write_slots bpp b v `div` 2 ^ bpp = v `div` 2 ^ bpp
  /\ Z.abs (write_slots bpp b v - v) <= 2 ^ bpp - 1.
Proof.
  intros Hbpp Hbit Hv.
  rewrite write_slots_closed_form by assumption.
  assert (Hp : 2 ^ bpp = 2 \/ 2 ^ bpp = 4 \/ 2 ^ bpp = 8).
  { repeat (apply elem_of_cons in Hbpp as [->|Hbpp]; [tauto|]).
    inversion Hbpp. }
  pose proof (Z.div_mod v (2 ^ bpp) ltac:(lia)) as Hdm.
  pose proof (Z.mod_pos_bound v (2 ^ bpp) ltac:(lia)) as Hmb.
  split.
  - rewrite Z.div_add_l by lia.
    rewrite (Z.div_small (b * (2 ^ bpp - 1))) by (unfold bit_ok in Hbit; nia).
    lia.
  - unfold bit_ok in Hbit. nia.
Qed.

(** [X6] What a successful [embed_data] saves, for an 8-bit greyscale or
    RGB cover: an array of the shape and size of the (RGB-normalised) cover whose
    samples are bytes; every sample keeps the bits above the low
    [bits_per_pixel] ones, so it is within [2^bits_per_pixel - 1] of the
    cover's; and no sample from index [40 + 8*len(body)] on is changed.
    The size in the success message is the length of the body. *)
Theorem embed_data_output (img : image) (secret_data : list Z) (bpp : Z)
    (use_compression : bool) (stego : ndarray) (n : nat) :
  let body := (compress_stage zlib_compress secret_data use_compression).1 in
  let cover := samples (normalize img) in
  image_ok img -> mode img ≠ RGBA ->
  embed_data zlib_compress (Some img) secret_data bpp use_compression
  = Embedded stego n ->
  n = length body
  /\ shape stego = shape (np_array (normalize img))
  /\ length (data stego) = length cover
  /\ Forall byte_ok (data stego)
  /\ (forall (k : nat) (v w : Z),
        cover !! k = Some v -> data stego !! k = Some w ->
        w `div` 2 ^ bpp = v `div` 2 ^ bpp /\ Z.abs (w - v) <= 2 ^ bpp - 1)
  /\ (forall k : nat,
        (40 + 8 * length body <= k)%nat -> data stego !! k = cover !! k).
Proof.
  intros body cover Hok _ Hembed.
  destruct (embed_success_inv _ _ _ _ _ _ Hembed) as (_ & Hbpp & Hlen).
  destruct (normalize_ok img Hok) as [[_ Hflat] _]. fold cover in Hflat.
  destruct (embed_data_spec zlib_compress img secret_data bpp use_compression
              Hbpp Hlen) as (frame & _ & Hflen & Hspec).
  fold body in Hflen, Hspec. rewrite Hspec in Hembed. clear Hspec.
  case_decide as Hcap; [discriminate Hembed|].
  assert (Hn : n = length body) by (now injection Hembed).
  apply Embedded_inj in Hembed. subst stego. cbn [shape data].
  change (data (np_array (normalize img))) with cover.
  assert (Hbits : Forall bit_ok (_bytes_to_bits frame))
    by apply bytes_to_bits_bit_ok.
  assert (Hbytes : Forall byte_ok (embedded_samples bpp (_bytes_to_bits frame) cover))
    by (apply embedded_samples_bytes; assumption).
  do 2 rewrite (np_clip_bytes (embedded_samples bpp (_bytes_to_bits frame) cover))
    by exact Hbytes.
  split; [exact Hn|]. split; [reflexivity|].
  split; [apply length_embedded_samples|]. split; [exact Hbytes|]. split.
  - intros k v w Hv Hw. unfold embedded_samples in Hw.
    rewrite list_lookup_imap, Hv in Hw. cbn in Hw. injection Hw as <-.
    pose proof (Forall_lookup_1 _ _ _ _ Hflat Hv) as Hvok.
    case_decide as Hk.
    + destruct (lookup_lt_is_Some_2 _ k Hk) as [b Hb].
      rewrite (list_lookup_total_correct _ _ _ Hb).
      apply write_slots_distance; try assumption.
      exact (Forall_lookup_1 _ _ _ _ Hbits Hb).
    + split; [reflexivity|]. rewrite Z.sub_diag.
      apply bpp_positive in Hbpp.
      assert (2 ^ 1 <= 2 ^ bpp) by (apply Z.pow_le_mono_r; lia). cbn. lia.
  - intros k Hk. unfold embedded_samples. rewrite list_lookup_imap.
    destruct (cover !! k) as [v|]; [|reflexivity]. cbn.
    rewrite decide_False; [reflexivity|].
    rewrite length_bytes_to_bits, Hflen. lia.
Qed.

End EmbedOutcome.

Lemma embed_accepts_iff_witness :
  ((exists stego,
      embed_data zlib_unused_compress (Some black_cover) [255] 1 false
      = Embedded stego 1)
   <-> 1 <= 6 - 5)
  /\ (6 - 5 < 1 ->
      embed_data zlib_unused_compress (Some black_cover) [255] 1 false
      = EmbedRefused (DataTooLarge 6 (5 + 1))).
Proof.
  apply (embed_accepts_iff zlib_unused_compress black_cover [255] 1 false
           {| pixels := 90; channels := 3; bits_per_pixel := 1;
              available_bytes := 6; available_bits := 50; header_bits := 40;
              image_mode := RGB; image_size := (30%nat, 1%nat) |}).
  - split; [reflexivity|]. apply Forall_replicate. unfold byte_ok. lia.
  - discriminate.
  - left.
  - vm_compute. reflexivity.
  - vm_compute. reflexivity.
Defined.

Lemma embed_data_output_witness :
  1%nat = length [255]
  /\ shape black_stego_one_bit = shape (np_array (normalize black_cover))
  /\ length (data black_stego_one_bit) = length (samples (normalize black_cover))
  /\ Forall byte_ok (data black_stego_one_bit)
  /\ (forall (k : nat) (v w : Z),
        samples (normalize black_cover) !! k = Some v ->
        data black_stego_one_bit !! k = Some w ->
        w `div` 2 ^ 1 = v `div` 2 ^ 1 /\ Z.abs (w - v) <= 2 ^ 1 - 1)
  /\ (forall k : nat,
        (40 + 8 * length [255] <= k)%nat ->
        data black_stego_one_bit !! k = samples (normalize black_cover) !! k).
Proof.
  apply (embed_data_output zlib_unused_compress black_cover [255] 1 false
           black_stego_one_bit 1).
  - split; [reflexivity|]. apply Forall_replicate. unfold byte_ok. lia.
  - discriminate.
  - vm_compute. reflexivity.
Defined.

(** ** The outcomes of [extract_data] *)

Lemma bits_to_bytes_aligned (n : nat) (bits : list Z) :
  length bits = (8 * n)%nat -> Forall bit_ok bits ->
  _bits_to_bytes bits = Some (pack_all bits).
Proof.
  intros Hlen Hbits. rewrite bits_to_bytes_unfold, pad_loop_aligned.
  2:{ rewrite Hlen, Nat.mul_comm. apply Nat.Div0.mod_mul. }
  unfold bytes_of_ints. rewrite decide_True; [reflexivity|].
  now apply (pack_all_aligned n).
Qed.

Section ExtractOutcome.

Variable zlib_decompress : list Z -> option (list Z).

(** The body [extract_data] reads once the header has passed its checks:
    exactly [data_length] bytes, whose bits are the addressed sample
    bits. *)
Lemma extract_body_spec (flat_array : list Z) (data_length flag bpp : Z) :
  0 < bpp -> 0 <= data_length ->
  40 + data_length * 8 <= Z.of_nat (length flat_array) * bpp ->
  exists body,
    length body = Z.to_nat data_length
    /\ Forall byte_ok body
    /\ _bytes_to_bits body
       = (fun i => Z.land ((flat_array !!! Z.to_nat (i `div` bpp))
                             ≫ (i `mod` bpp)) 1)
           <$> seqZ 40 (data_length * 8)
    /\ extract_body zlib_decompress flat_array data_length flag bpp
       = if decide (flag = 1)
         then match zlib_decompress body with
              | Some secret => Extracted secret
              | None => ExtractRefused DecompressionFailed
              end
         else Extracted body.
Proof.
  intros Hbpp Hn Hfit.
  set (body_bits := (fun i => Z.land ((flat_array !!! Z.to_nat (i `div` bpp))
                                        ≫ (i `mod` bpp)) 1)
                      <$> seqZ 40 (data_length * 8)).
  assert (Hlen : length body_bits = (8 * Z.to_nat data_length)%nat).
  { unfold body_bits. rewrite length_fmap, length_seqZ. lia. }
  assert (Hbits : Forall bit_ok body_bits).
  { unfold body_bits. apply Forall_fmap, Forall_forall. intros i _.
    apply lsb_bit_ok. }
  destruct (pack_all_aligned _ _ Hlen Hbits) as (Hl & Hbytes & Hback).
  exists (pack_all body_bits). repeat split; try assumption.
  unfold extract_body. rewrite decide_False by lia.
  rewrite body_loop_spec by assumption. fold body_bits.
  rewrite (bits_to_bytes_aligned _ _ Hlen Hbits).
  rewrite take_ge by lia. reflexivity.
Qed.

(** [X7] [extract_data] answers "Image too small to contain valid data"
    exactly for the images with fewer than forty samples after RGB
    normalisation (fewer than 14 pixels); it never gives that answer for a
    larger image, whatever its pixels hold. *)
Theorem extract_too_small_iff (img : image) :
  extract_data zlib_decompress (Some img) = ExtractRefused ImageTooSmall
  <-> (length (samples (normalize img)) < 40)%nat.
Proof.
  split; [|apply extract_data_short].
  intros H.
  destruct (decide (length (samples (normalize img)) < 40)%nat) as [|Hlong];
    [assumption|exfalso].
  rewrite extract_data_parsed in H by lia.
  case_decide; [discriminate H|].
  unfold extract_body in H. case_decide; [discriminate H|].
  destruct (_bits_to_bytes _); [|discriminate H].
  case_decide; [|discriminate H].
  destruct (zlib_decompress _); discriminate H.
Qed.

(** [X8] On an image that opens, [extract_data] never ends in its
    catch-all exception handler ("Extraction failed: ...") nor in its
    "Header corrupted" branch: the forty header bits always make five
    bytes, and the body bits always make bytes. *)
Theorem extract_never_raises (img : image) :
  extract_data zlib_decompress (Some img) ≠ ExtractRefused ExtractionFailed
  /\ extract_data zlib_decompress (Some img) ≠ ExtractRefused HeaderCorrupted.
Proof.
  destruct (decide (length (samples (normalize img)) < 40)%nat) as [Hs|Hl].
  - rewrite extract_data_short by exact Hs. split; discriminate.
  - rewrite extract_data_parsed by lia.
    case_decide as Hbig; [split; discriminate|].
    set (flat_array := samples (normalize img)).
    pose proof (header_bits_per_pixel_range flat_array) as Hb.
    apply bpp_positive in Hb.
    destruct (decide (40 + header_length flat_array * 8
                      > Z.of_nat (length flat_array)
                        * header_bits_per_pixel flat_array)) as [Hneed|Hfit].
    + unfold extract_body. rewrite decide_True by exact Hneed.
      split; discriminate.
    + destruct (extract_body_spec flat_array (header_length flat_array)
                  (header_compression_flag flat_array)
                  (header_bits_per_pixel flat_array) ltac:(lia)
                  (header_length_nonneg flat_array) ltac:(lia))
        as (body & _ & _ & _ & ->).
      case_decide; [destruct (zlib_decompress body)|]; split; discriminate.
Qed.

(** [X9] The bytes [extract_data] returns from an image of forty samples
    or more whose header declares [n <= 10,000,000] bytes that fit
    ([40 + 8n <= samples * b], with [b] the header's bits-per-pixel): when
    the compression flag is not set it returns exactly [n] bytes, and bit
    [j] of them (most significant bit of each byte first) is bit slot
    [(40+j) mod b] of sample [(40+j) div b]; when the flag is set it
    returns what [zlib.decompress] makes of these bytes, or "Decompression
    failed". *)
Theorem extract_data_bytes (img : image) :
  let flat_array := samples (normalize img) in
  let n := header_length flat_array in
  let b := header_bits_per_pixel flat_array in
  (40 <= length flat_array)%nat ->
  n <= 10000000 ->
  40 + n * 8 <= Z.of_nat (length flat_array) * b ->
  exists body,
    length body = Z.to_nat n
    /\ (forall j : nat,
          (j < 8 * Z.to_nat n)%nat ->
          _bytes_to_bits body !! j
          = Some (Z.land ((flat_array !!! Z.to_nat ((40 + Z.of_nat j) `div` b))
                            ≫ ((40 + Z.of_nat j) `mod` b)) 1))
    /\ extract_data zlib_decompress (Some img)
       = if decide (header_compression_flag flat_array = 1)
         then match zlib_decompress body with
              | Some secret => Extracted secret
              | None => ExtractRefused DecompressionFailed
              end
         else Extracted body.
Proof.
  intros flat_array n b Hlong Hsmall Hfit.
  pose proof (header_bits_per_pixel_range flat_array) as Hb.
  apply bpp_positive in Hb. fold b in Hb.
  destruct (extract_body_spec flat_array n
              (header_compression_flag flat_array) b ltac:(lia)
              (header_length_nonneg flat_array) Hfit)
    as (body & Hlen & _ & Hbits & Hbody).
  exists body. split; [exact Hlen|]. split.
  - intros j Hj. rewrite Hbits, list_lookup_fmap.
    rewrite lookup_seqZ_lt by lia. reflexivity.
  - rewrite extract_data_parsed by exact Hlong. fold flat_array n b.
    rewrite decide_False by lia. exact Hbody.
Qed.

End ExtractOutcome.

Lemma extract_data_bytes_witness :
  exists body,
    length body = 1%nat
    /\ (forall j : nat,
          (j < 8)%nat ->
          _bytes_to_bits body !! j
          = Some (Z.land ((data black_stego_one_bit
                             !!! Z.to_nat ((40 + Z.of_nat j) `div` 1))
                            ≫ ((40 + Z.of_nat j) `mod` 1)) 1))
    /\ extract_data zlib_unused_decompress (Some (saved_png black_stego_one_bit))
       = Extracted body.
Proof.
  apply (extract_data_bytes zlib_unused_decompress (saved_png black_stego_one_bit)).
  - vm_compute. lia.
  - vm_compute. discriminate.
  - vm_compute. discriminate.
Defined.

(** ** Embedding, then extracting *)

(** The header fields the embedded array spells, at every bits-per-pixel
    value: slot 0 of sample [k] holds frame bit [k], which is how
    [extract_data] reads the header. *)
Lemma stego_header (bpp flag b0 b1 b2 b3 : Z) (body flat_array : list Z) :
  let metadata := Z.lor (flag ≪ 7) (Z.land bpp 7) in
  let stego_flat :=
    embedded_samples bpp
      (_bytes_to_bits ([b0; b1; b2; b3; metadata] ++ body)) flat_array in
  bpp ∈ [1; 2; 3] -> bit_ok flag ->
  Forall byte_ok [b0; b1; b2; b3] ->
  Forall byte_ok flat_array -> (40 <= length flat_array)%nat ->
  header_length stego_flat = ((b0 * 256 + b1) * 256 + b2) * 256 + b3
  /\ header_bits_per_pixel stego_flat = bpp
  /\ header_compression_flag stego_flat = flag.
Proof.
  intros metadata stego_flat Hbpp Hflag Hheader Hflat Hlong.
  set (data_bits := _bytes_to_bits ([b0; b1; b2; b3; metadata] ++ body)).
  assert (Hbits : Forall bit_ok data_bits) by apply bytes_to_bits_bit_ok.
  assert (Hsplit : data_bits
                   = _bytes_to_bits [b0; b1; b2; b3]
                     ++ byte_bits metadata ++ _bytes_to_bits body).
  { unfold data_bits.
    change ([b0; b1; b2; b3; metadata] ++ body)
      with ([b0; b1; b2; b3] ++ metadata :: body).
    now rewrite bytes_to_bits_app, bytes_to_bits_cons. }
  assert (Hbl : (40 <= length data_bits)%nat).
  { rewrite Hsplit, !length_app, !length_bytes_to_bits, length_byte_bits.
    cbn [length]. lia. }
  assert (Hmv : metadata = flag * 128 + bpp).
  { unfold metadata. rewrite metadata_value by exact Hflag.
    apply bpp_positive in Hbpp. rewrite Z.mod_small by lia. reflexivity. }
  assert (Hhm : header_metadata stego_flat = metadata).
  { unfold header_metadata, stego_flat. fold data_bits.
    rewrite embedded_lsb_slice by (try assumption; lia).
    rewrite Hsplit, drop_app_length'
      by (rewrite length_bytes_to_bits; reflexivity).
    rewrite take_app_length' by (rewrite length_byte_bits; reflexivity).
    apply bits_value_byte_bits. rewrite Hmv.
    apply bpp_positive in Hbpp. unfold byte_ok, bit_ok in *. lia. }
  split; [|split].
  - unfold header_length. rewrite <- (drop_0 stego_flat).
    unfold stego_flat. fold data_bits.
    rewrite embedded_lsb_slice by (try assumption; lia).
    rewrite drop_0, Hsplit, take_app_length'
      by (rewrite length_bytes_to_bits; reflexivity).
    apply bits_value_bytes_to_bits_4, Hheader.
  - unfold header_bits_per_pixel. rewrite Hhm, Hmv.
    destruct Hflag as [-> | ->];
      repeat (apply elem_of_cons in Hbpp as [->|Hbpp]; [reflexivity|]);
      inversion Hbpp.
  - unfold header_compression_flag. rewrite Hhm, Hmv.
    destruct Hflag as [-> | ->];
      repeat (apply elem_of_cons in Hbpp as [->|Hbpp]; [reflexivity|]);
      inversion Hbpp.
Qed.

Section EmbedThenExtract.

Variable zlib_compress : list Z -> Z -> option (list Z).
Variable zlib_decompress : list Z -> option (list Z).

(** [X10] The header survives embedding at 1, 2 and 3 bits per pixel: after
    a successful [embed_data] into an 8-bit cover of forty samples or
    more, with a body of at most 10,000,000 bytes, [extract_data] on the
    saved image decodes the length of the body, the compression flag and
    the bits-per-pixel value that were embedded, and goes on to read the
    body with them. *)
Theorem header_survives_embedding (img : image) (secret_data : list Z)
    (bpp : Z) (use_compression : bool) (stego : ndarray) (n : nat) :
  let body := (compress_stage zlib_compress secret_data use_compression).1 in
  let flag := (compress_stage zlib_compress secret_data use_compression).2 in
  image_ok img -> mode img ≠ RGBA ->
  (40 <= length (samples (normalize img)))%nat ->
  Z.of_nat (length body) <= 10000000 ->
  embed_data zlib_compress (Some img) secret_data bpp use_compression
  = Embedded stego n ->
  header_length (data stego) = Z.of_nat (length body)
  /\ header_bits_per_pixel (data stego) = bpp
  /\ header_compression_flag (data stego) = flag
  /\ extract_data zlib_decompress (Some (saved_png stego))
     = extract_body zlib_decompress (data stego)
         (Z.of_nat (length body)) flag bpp.
Proof.
  intros body flag Hok _ Hlong Hsmall Hembed.
  destruct (embed_success_inv _ _ _ _ _ _ _ Hembed) as (_ & Hbpp & Hlen).
  fold body in Hlen.
  pose proof (compress_stage_spec zlib_compress secret_data use_compression)
    as Hstage. cbn zeta in Hstage. fold body flag in Hstage.
  assert (Hflag : bit_ok flag) by (unfold bit_ok; tauto).
  destruct (normalize_ok img Hok) as [[_ Hflat] _].
  destruct (build_frame_header zlib_compress secret_data bpp use_compression Hlen)
    as (b0 & b1 & b2 & b3 & Hframe & Hheader & Hsum).
  fold body flag in Hframe, Hheader, Hsum.
  destruct (embed_data_spec zlib_compress img secret_data bpp use_compression
              Hbpp Hlen) as (frame & Hframe' & _ & Hspec).
  rewrite Hframe in Hframe'. apply (inj Some) in Hframe'. subst frame.
  rewrite Hspec in Hembed. clear Hspec.
  case_decide as Hcap; [discriminate Hembed|].
  apply Embedded_inj in Hembed. subst stego. cbn [data].
  change (data (np_array (normalize img))) with (samples (normalize img)).
  set (flat_array := samples (normalize img)) in *.
  set (data_bits := _bytes_to_bits _).
  do 2 rewrite (np_clip_bytes (embedded_samples bpp data_bits flat_array))
    by (apply embedded_samples_bytes;
        [assumption|apply bytes_to_bits_bit_ok|assumption]).
  apply (Forall_app byte_ok [b0; b1; b2; b3]
           [Z.lor (flag ≪ 7) (Z.land bpp 7)]) in Hheader as [Hheader _].
  destruct (stego_header bpp flag b0 b1 b2 b3 body flat_array
              Hbpp Hflag Hheader Hflat Hlong) as (Hhl & Hhb & Hhf).
  fold data_bits in Hhl, Hhb, Hhf. rewrite Hsum in Hhl.
  split; [exact Hhl|]. split; [exact Hhb|]. split; [exact Hhf|].
  rewrite extract_data_parsed
    by (rewrite samples_saved_png; cbn [data];
        rewrite length_embedded_samples; exact Hlong).
  rewrite samples_saved_png. cbn [data].
  rewrite Hhl, Hhb, Hhf. rewrite decide_False by lia. reflexivity.
Qed.

End EmbedThenExtract.

Lemma header_survives_embedding_witness :
  header_length (data black_stego) = 1
  /\ header_bits_per_pixel (data black_stego) = 2
  /\ header_compression_flag (data black_stego) = 0
  /\ extract_data zlib_unused_decompress (Some (saved_png black_stego))
     = extract_body zlib_unused_decompress (data black_stego) 1 0 2.
Proof.
  apply (header_survives_embedding zlib_unused_compress zlib_unused_decompress
           black_cover [255] 2 false black_stego 1).
  - split; [reflexivity|]. apply Forall_replicate. unfold byte_ok. lia.
  - discriminate.
  - vm_compute. lia.
  - vm_compute. discriminate.
  - vm_compute. reflexivity.
Defined.

Section RoundTripWithinCapacity.

Variable zlib_compress : list Z -> Z -> option (list Z).
Variable zlib_decompress : list Z -> option (list Z).

Hypothesis zlib_bytes :
  forall x level y, zlib_compress x level = Some y -> Forall byte_ok y.
Hypothesis zlib_inverse :
  forall x level y, zlib_compress x level = Some y -> zlib_decompress y = Some x.

(** [X11] The round trip the code does guarantee, at one bit per pixel:
    for an 8-bit greyscale or RGB cover and a payload whose body (the
    payload after the compression stage) has at most [available_bytes - 5]
    bytes, [available_bytes] being what [calculate_capacity] reports, and
    at most 10,000,000 bytes, [embed_data] succeeds and [extract_data] on
    the saved image returns the payload, compressed or not.  ([zlib] is
    taken to return bytes and [zlib.decompress] to undo [zlib.compress].) *)
Theorem round_trip_within_capacity (img : image) (secret_data : list Z)
    (use_compression : bool) (r : capacity_info) :
  let body := (compress_stage zlib_compress secret_data use_compression).1 in
  image_ok img -> mode img ≠ RGBA -> Forall byte_ok secret_data ->
  calculate_capacity (Some img) 1 = inl r ->
  Z.of_nat (length body) <= available_bytes r - 5 ->
  Z.of_nat (length body) <= 10000000 ->
  exists stego,
    embed_data zlib_compress (Some img) secret_data 1 use_compression
    = Embedded stego (length body)
    /\ extract_data zlib_decompress (Some (saved_png stego))
       = Extracted secret_data.
Proof.
  intros body Hok Hmode Hsecret Hcap Hfit Hsmall.
  destruct (embed_accepts_below_capacity zlib_compress img secret_data 1
              use_compression r ltac:(left) Hcap Hfit ltac:(fold body; lia))
    as [stego Hembed].
  exists stego. split; [exact Hembed|].
  exact (round_trip_one_bit zlib_compress zlib_decompress zlib_bytes
           zlib_inverse img secret_data use_compression stego _
           Hok Hmode Hsecret Hsmall Hembed).
Qed.

End RoundTripWithinCapacity.

Lemma round_trip_within_capacity_witness :
  exists stego,
    embed_data zlib_unused_compress (Some black_cover) [255] 1 true
    = Embedded stego 1
    /\ extract_data zlib_unused_decompress (Some (saved_png stego))
       = Extracted [255].
Proof.
  apply (round_trip_within_capacity zlib_unused_compress zlib_unused_decompress
           ltac:(discriminate) ltac:(discriminate) black_cover [255] true
           {| pixels := 90; channels := 3; bits_per_pixel := 1;
              available_bytes := 6; available_bits := 50; header_bits := 40;
              image_mode := RGB; image_size := (30%nat, 1%nat) |}).
  - split; [reflexivity|]. apply Forall_replicate. unfold byte_ok. lia.
  - discriminate.
  - apply Forall_cons_2; [unfold byte_ok; lia|apply Forall_nil_2].
  - vm_compute. reflexivity.
  - vm_compute. discriminate.
  - vm_compute. discriminate.
Defined.

(** ** The compression switch *)

Section CompressionSwitch.

Variable zlib_compress : list Z -> Z -> option (list Z).

(** [X12] Asking for compression never costs anything: the body is never
    longer than the payload, so a payload [embed_data] accepts without
    compression is accepted with it, with a reported data size that is no
    larger; and for a payload of at most 100 bytes the switch changes
    nothing at all. *)
Theorem compression_never_hurts (img : image) (secret_data : list Z) (bpp : Z) :
  (length (compress_stage zlib_compress secret_data true).1
   <= length secret_data)%nat
  /\ (forall stego n,
        embed_data zlib_compress (Some img) secret_data bpp false
        = Embedded stego n ->
        exists stego' n',
          embed_data zlib_compress (Some img) secret_data bpp true
          = Embedded stego' n' /\ (n' <= n)%nat)
  /\ ((length secret_data <= 100)%nat ->
      embed_data zlib_compress (Some img) secret_data bpp true
      = embed_data zlib_compress (Some img) secret_data bpp false).
Proof.
  assert (Hshort : (length (compress_stage zlib_compress secret_data true).1
                    <= length secret_data)%nat).
  { destruct (compress_stage_spec zlib_compress secret_data true)
      as [(_ & _ & _ & _ & H)|[_ H]]; [lia|]. rewrite H. lia. }
  split; [exact Hshort|]. split.
  - intros stego n Hembed.
    destruct (embed_success_inv _ _ _ _ _ _ _ Hembed) as (_ & Hbpp & Hlen).
    change (compress_stage zlib_compress secret_data false).1
      with secret_data in Hlen.
    destruct (embed_data_spec zlib_compress img secret_data bpp false Hbpp Hlen)
      as (frame & _ & _ & Hspec).
    change (compress_stage zlib_compress secret_data false).1
      with secret_data in Hspec.
    rewrite Hspec in Hembed. case_decide as Hcap; [discriminate Hembed|].
    assert (Hn : n = length secret_data) by (now injection Hembed).
    destruct (embed_data_spec zlib_compress img secret_data bpp true Hbpp
                ltac:(lia)) as (frame' & _ & _ & Hspec').
    rewrite Hspec'. rewrite decide_False by lia.
    eexists _, _. split; [reflexivity|]. lia.
  - intros Hsmall. unfold embed_data, build_frame, compress_stage.
    rewrite bool_decide_eq_false_2 by lia. reflexivity.
Qed.

End CompressionSwitch.

(** ** The capacity report *)

(** [X13] The capacity report never describes a single-channel image: the
    image is measured after RGB normalisation, so the report's channel
    count is 3 or 4 and its mode RGB or RGBA; a greyscale image of
    [height*width] pixels is reported as RGB with 3 channels and
    [3*height*width] samples.  The header cost is always 40 bits and the
    reported size is the image's own. *)
Theorem capacity_report_is_rgb (img : image) (bpp : Z) (r : capacity_info) :
  calculate_capacity (Some img) bpp = inl r ->
  (channels r = 3 /\ image_mode r = RGB \/ channels r = 4 /\ image_mode r = RGBA)
  /\ pixels r = Z.of_nat (height img * width img) * channels r
  /\ (mode img = L ->
      channels r = 3 /\ image_mode r = RGB
      /\ pixels r = 3 * Z.of_nat (height img * width img))
  /\ header_bits r = 40
  /\ image_size r = (width img, height img).
Proof.
  intros H. unfold calculate_capacity in H.
  apply (inj inl) in H. subst r.
  cbn [channels image_mode pixels header_bits image_size].
  rewrite channels_np_array_normalize, size_np_array_normalize.
  destruct img as [[] w h s]; cbn [mode height width];
    (split; [|split; [|split; [|split]]]);
    try reflexivity; try discriminate;
    first [ left; split; reflexivity
          | right; split; reflexivity
          | intros _; repeat split; cbv [normalize convert_RGB mode bands
                                           decide decide_rel]; cbn; lia
          | cbv [normalize convert_RGB mode bands decide decide_rel];
            cbn; lia ].
Qed.

Lemma capacity_report_is_rgb_witness :
  calculate_capacity (Some grey_2x2) 1
  = inl {| pixels := 12; channels := 3; bits_per_pixel := 1;
           available_bytes := 0; available_bits := -28; header_bits := 40;
           image_mode := RGB; image_size := (2%nat, 2%nat) |}
  /\ (mode grey_2x2 = L -> 3 = 3 /\ RGB = RGB /\ 12 = 3 * Z.of_nat (2 * 2)).
Proof.
  assert (H : calculate_capacity (Some grey_2x2) 1
              = inl {| pixels := 12; channels := 3; bits_per_pixel := 1;
                       available_bytes := 0; available_bits := -28;
                       header_bits := 40; image_mode := RGB;
                       image_size := (2%nat, 2%nat) |})
    by (vm_compute; reflexivity).
  split; [exact H|].
  exact (proj1 (proj2 (proj2 (capacity_report_is_rgb grey_2x2 1 _ H)))).
Defined.

(** ** What extraction looks at *)

Lemma land_shiftr_low_bits (v1 v2 pos : Z) :
  0 <= pos < 3 -> v1 `mod` 8 = v2 `mod` 8 ->
  Z.land (v1 ≫ pos) 1 = Z.land (v2 ≫ pos) 1.
Proof.
  intros Hpos Hmod.
  rewrite !land_1_mod, <- !Z.bit0_mod, !Z.shiftr_spec by lia.
  rewrite Z.add_0_l. f_equal.
  rewrite <- (Z.mod_pow2_bits_low v1 3 pos), <- (Z.mod_pow2_bits_low v2 3 pos)
    by lia.
  change (2 ^ 3) with 8. now rewrite Hmod.
Qed.

Lemma same_low_bits_lookup (flat1 flat2 : list Z) (k : nat) :
  same_low_bits flat1 flat2 -> (k < length flat1)%nat ->
  (flat1 !!! k) `mod` 8 = (flat2 !!! k) `mod` 8.
Proof.
  intros H Hk.
  destruct (lookup_lt_is_Some_2 flat1 k Hk) as [v1 Hv1].
  destruct (Forall2_lookup_l _ _ _ _ _ H Hv1) as (v2 & Hv2 & Hmod).
  now rewrite (list_lookup_total_correct _ _ _ Hv1),
    (list_lookup_total_correct _ _ _ Hv2).
Qed.

Lemma same_low_bits_lsb (flat1 flat2 : list Z) :
  same_low_bits flat1 flat2 -> lsb <$> flat1 = lsb <$> flat2.
Proof.
  induction 1 as [|v1 v2 l1 l2 Hv _ IH]; [reflexivity|].
  cbn [fmap list_fmap]. f_equal; [|exact IH].
  unfold lsb. rewrite <- (Z.shiftr_0_r v1), <- (Z.shiftr_0_r v2).
  apply land_shiftr_low_bits; [lia|exact Hv].
Qed.

Lemma same_low_bits_header (flat1 flat2 : list Z) :
  same_low_bits flat1 flat2 ->
  header_length flat1 = header_length flat2
  /\ header_metadata flat1 = header_metadata flat2.
Proof.
  intros H. unfold header_length, header_metadata.
  rewrite (same_low_bits_lsb (take 32 flat1) (take 32 flat2))
    by (apply Forall2_take, H).
  rewrite (same_low_bits_lsb (take 8 (drop 32 flat1)) (take 8 (drop 32 flat2)))
    by (apply Forall2_take, Forall2_drop, H).
  split; reflexivity.
Qed.

Lemma bind_ext_elem {A B} (f g : A -> list B) (l : list A) :
  (forall x, x ∈ l -> f x = g x) -> l ≫= f = l ≫= g.
Proof.
  induction l as [|x l IH]; intros H; [reflexivity|].
  cbn [mbind list_bind]. rewrite H by left. f_equal.
  apply IH. intros y Hy. apply H. now right.
Qed.

Lemma same_low_bits_body_loop (flat1 flat2 : list Z) (bpp total : Z) :
  same_low_bits flat1 flat2 -> 0 < bpp <= 3 ->
  body_loop flat1 bpp total = body_loop flat2 bpp total.
Proof.
  intros H Hbpp. unfold body_loop.
  rewrite <- (Forall2_length _ _ _ H).
  apply bind_ext_elem. intros i Hi.
  case_decide as Hk; [|reflexivity]. f_equal.
  pose proof (Z.mod_pos_bound i bpp ltac:(lia)).
  apply land_shiftr_low_bits; [lia|].
  apply same_low_bits_lookup; assumption.
Qed.

Section ExtractLowBits.

Variable zlib_decompress : list Z -> option (list Z).

(** [X14] [extract_data] looks at the three low bits of each sample and at
    nothing else: two images whose samples (after RGB normalisation) agree
    modulo 8 give the same outcome, the same bytes or the same message. *)
Theorem extract_reads_low_bits_only (img1 img2 : image) :
  same_low_bits (samples (normalize img1)) (samples (normalize img2)) ->
  extract_data zlib_decompress (Some img1)
  = extract_data zlib_decompress (Some img2).
Proof.
  intros H. pose proof (Forall2_length _ _ _ H) as Hlen.
  destruct (decide (length (samples (normalize img1)) < 40)%nat) as [Hs|Hl].
  - rewrite !extract_data_short by lia. reflexivity.
  - rewrite !extract_data_parsed by lia.
    destruct (same_low_bits_header _ _ H) as [Hhl Hhm].
    unfold header_bits_per_pixel, header_compression_flag.
    rewrite <- Hhl, <- Hhm.
    case_decide; [reflexivity|].
    fold (header_bits_per_pixel (samples (normalize img1))).
    fold (header_compression_flag (samples (normalize img1))).
    unfold extract_body. rewrite <- Hlen.
    case_decide; [reflexivity|].
    rewrite (same_low_bits_body_loop _ _ _ _ H); [reflexivity|].
    apply bpp_positive, header_bits_per_pixel_range.
Qed.

End ExtractLowBits.

Lemma extract_reads_low_bits_only_witness :
  extract_data zlib_unused_decompress (Some (saved_png black_stego))
  = extract_data zlib_unused_decompress
      (Some {| mode := RGB; width := 30; height := 1;
               samples := (fun v => v + 248) <$> data black_stego |}).
Proof.
  apply extract_reads_low_bits_only.
  apply Forall2_fmap_r, Forall_Forall2_diag, Forall_forall.
  intros v _. now rewrite <- (Z.mod_add v 31 8) by lia.
Defined.

(** ** The saved image as a cover *)

Section StegoCapacity.

Variable zlib_compress : list Z -> Z -> option (list Z).

(** [X15] The saved image has the capacity of its cover: after a
    successful [embed_data] into a greyscale or RGB cover,
    [calculate_capacity] gives the same sample count, channel count and
    available bits and bytes for the saved image as for the cover, at
    every bits-per-pixel value, so the saved image can serve as a cover
    for a payload of the same size. *)
Theorem stego_keeps_capacity (img : image) (secret_data : list Z) (bpp : Z)
    (use_compression : bool) (stego : ndarray) (n : nat) (bpp' : Z) :
  mode img ≠ RGBA ->
  embed_data zlib_compress (Some img) secret_data bpp use_compression
  = Embedded stego n ->
  exists r r',
    calculate_capacity (Some img) bpp' = inl r
    /\ calculate_capacity (Some (saved_png stego)) bpp' = inl r'
    /\ pixels r' = pixels r
    /\ channels r' = channels r
    /\ available_bits r' = available_bits r
    /\ available_bytes r' = available_bytes r
    /\ image_mode r' = RGB
    /\ image_size r' = image_size r.
Proof.
  intros Hmode Hembed.
  destruct (embed_success_inv _ _ _ _ _ _ _ Hembed) as (_ & Hbpp & Hlen).
  destruct (embed_data_spec zlib_compress img secret_data bpp use_compression
              Hbpp Hlen) as (frame & _ & _ & Hspec).
  rewrite Hspec in Hembed. clear Hspec.
  case_decide as Hcap; [discriminate Hembed|].
  apply Embedded_inj in Hembed. subst stego.
  eexists _, _. split; [reflexivity|]. split; [reflexivity|].
  destruct img as [[] w h s]; [| |contradiction];
    repeat split; reflexivity.
Qed.

End StegoCapacity.

Lemma stego_keeps_capacity_witness :
  exists r r',
    calculate_capacity (Some black_cover) 3 = inl r
    /\ calculate_capacity (Some (saved_png black_stego)) 3 = inl r'
    /\ pixels r' = pixels r
    /\ channels r' = channels r
    /\ available_bits r' = available_bits r
    /\ available_bytes r' = available_bytes r
    /\ image_mode r' = RGB
    /\ image_size r' = image_size r.
Proof.
  apply (stego_keeps_capacity zlib_unused_compress black_cover [255] 2 false
           black_stego 1 3).
  - discriminate.
  - vm_compute. reflexivity.
Defined.
